(** * dfttk structure builders: endmembers and dilute substitutions

    A shallow embedding of [dfttk/structure_builders/endmembers.py] and
    [dfttk/structure_builders/dilute.py], with the properties of the
    sublattice modeler, the endmember generator and the dilute substitution
    generator stated over it.

    Strings are Python [str] restricted to bytes; [dict] objects that are
    only looked up are [gmap]; Python exceptions are the [Raise] results of
    an error monad; a structure object that is mutated in place lives in a
    store of objects addressed by references. *)

From Stdlib Require OrdersEx.
From stdpp Require Import base option list gmap strings sorting fin_maps.

(** ** Exceptions *)

Inductive exn : Set :=
  | SymmetryError      (* raised by the symmetry analysis collaborator *)
  | UnboundLocalError
  | IndexError
  | KeyError
  | TypeError
  | ValueError         (* Element.from_Z on an unknown atomic number *)
  | ReferenceError     (* a reference that names no object *)
  | SubstitutionError  (* raised by the substitution engine *)
  | IndentationError   (* the source of a module does not tokenize *)
  | TabError.          (* tabs and spaces used inconsistently *)

Inductive result (A : Type) : Type :=
  | Ok (a : A)
  | Raise (e : exn).
Arguments Ok {A} a.
Arguments Raise {A} e.

#[global] Instance result_ret : MRet result := λ A a, Ok a.
#[global] Instance result_bind : MBind result := λ A B f m,
  match m with Ok a => f a | Raise e => Raise e end.

Definition is_Ok {A} (m : result A) : Prop := ∃ a, m = Ok a.

(** A Python [for] loop whose body may raise, threading the loop state. *)
Fixpoint for_each {A S : Type} (body : S → A → result S) (s : S) (l : list A)
  : result S :=
  match l with
  | [] => Ok s
  | x :: l' => s' ← body s x; for_each body s' l'
  end.

(** ** Python string order and [sorted] *)

(** [str] comparison is lexicographic on code points; a proper prefix is
    smaller. *)
Definition str_le (a b : string) : Prop := OrdersEx.String_as_OT.compare a b ≠ Gt.
Definition str_lt (a b : string) : Prop := OrdersEx.String_as_OT.compare a b = Lt.

#[global] Instance str_le_dec : RelDecision str_le.
Proof. intros a b. unfold str_le. apply _. Defined.

(** [sorted(xs)] on a list of strings. *)
Definition sorted (l : list string) : list string := merge_sort str_le l.

(** [sorted(set(xs))]: the iteration order of the set is immaterial once
    sorted. *)
Definition sorted_set (l : list string) : list string :=
  sorted (elements (list_to_set l : gset string)).

(** [itertools.product] applied to the unpacked list of axes: the right-most
    axis varies fastest. *)
Fixpoint product {A : Type} (axes : list (list A)) : list (list A) :=
  match axes with
  | [] => [[]]
  | ax :: rest => x ← ax; t ← product rest; [x :: t]
  end.

(** [dict(pairs)]: a later pair overwrites an earlier one with the same key. *)
Definition dict_of_pairs {V : Type} (pairs : list (string * V)) : gmap string V :=
  foldl (λ m kv, <[kv.1 := kv.2]> m) ∅ pairs.

(** ** The periodic table *)

(** Element symbols by atomic number, [Element.from_Z]. *)
Definition periodic_table : list string :=
  [ "H"; "He"; "Li"; "Be"; "B"; "C"; "N"; "O"; "F"; "Ne";
    "Na"; "Mg"; "Al"; "Si"; "P"; "S"; "Cl"; "Ar"; "K"; "Ca";
    "Sc"; "Ti"; "V"; "Cr"; "Mn"; "Fe"; "Co"; "Ni"; "Cu"; "Zn";
    "Ga"; "Ge"; "As"; "Se"; "Br"; "Kr"; "Rb"; "Sr"; "Y"; "Zr";
    "Nb"; "Mo"; "Tc"; "Ru"; "Rh"; "Pd"; "Ag"; "Cd"; "In"; "Sn";
    "Sb"; "Te"; "I"; "Xe"; "Cs"; "Ba"; "La"; "Ce"; "Pr"; "Nd";
    "Pm"; "Sm"; "Eu"; "Gd"; "Tb"; "Dy"; "Ho"; "Er"; "Tm"; "Yb";
    "Lu"; "Hf"; "Ta"; "W"; "Re"; "Os"; "Ir"; "Pt"; "Au"; "Hg";
    "Tl"; "Pb"; "Bi"; "Po"; "At"; "Rn"; "Fr"; "Ra"; "Ac"; "Th";
    "Pa"; "U"; "Np"; "Pu"; "Am"; "Cm"; "Bk"; "Cf"; "Es"; "Fm";
    "Md"; "No"; "Lr"; "Rf"; "Db"; "Sg"; "Bh"; "Hs"; "Mt"; "Ds";
    "Rg"; "Cn"; "Nh"; "Fl"; "Mc"; "Lv"; "Ts"; "Og" ].

(** [str(Element.from_Z(z))]; an atomic number outside the table raises. *)
Definition from_Z (z : nat) : result string :=
  match z with
  | O => Raise ValueError
  | S k => match periodic_table !! k with
           | Some sym => Ok sym
           | None => Raise ValueError
           end
  end.

(** ** Source layout and import

    Importing a module compiles its source, and the tokenizer checks the
    indentation of every logical line first.  A source file is kept here as
    the leading white space of its lines, each line marked as opening a
    logical line, as lying inside a string literal opened on an earlier line,
    or as blank. *)

Inductive line_kind : Set := Code | Inside | Blank.

Record src_line : Set := mkLine { kind : line_kind; leading : string }.

Definition tab : string := String (Ascii.ascii_of_nat 9) EmptyString.

(** [t] tabs followed by [n] spaces. *)
Definition ws (t n : nat) : string :=
  fold_right String.append EmptyString (replicate t tab ++ replicate n " ").

(** Column and alternate column of the first token of a line: a tab moves
    to the next multiple of 8, respectively of 1; a form feed restarts the
    count. *)
Fixpoint columns (leading : string) (col altcol : nat) : nat * nat :=
  match leading with
  | EmptyString => (col, altcol)
  | String c rest =>
    if decide (c = Ascii.ascii_of_nat 32) then columns rest (S col) (S altcol)
    else if decide (c = Ascii.ascii_of_nat 9)
         then columns rest ((col / 8 + 1) * 8) ((altcol / 1 + 1) * 1)
    else if decide (c = Ascii.ascii_of_nat 12) then columns rest 0 0
    else (col, altcol)
  end.

(** Closing the indentation levels deeper than [col]. *)
Fixpoint pop_levels (col : nat) (stack : list (nat * nat)) : list (nat * nat) :=
  match stack with
  | (level, altlevel) :: below =>
    if decide (col < level) then pop_levels col below else stack
  | [] => []
  end.

(** One logical line against the stack of open indentation levels, innermost
    first, the outermost being column 0. *)
Definition indent_step (stack : list (nat * nat)) (leading : string)
  : result (list (nat * nat)) :=
  let '(col, altcol) := columns leading 0 0 in
  match stack with
  | [] => Raise IndentationError
  | (top, alttop) :: _ =>
    if decide (col = top) then
      if decide (altcol = alttop) then Ok stack else Raise TabError
    else if decide (top < col) then
      if decide (altcol ≤ alttop) then Raise TabError
      else Ok ((col, altcol) :: stack)
    else
      match pop_levels col stack with
      | [] => Raise IndentationError
      | (level, altlevel) :: below =>
        if decide (col = level) then
          if decide (altcol = altlevel) then Ok ((level, altlevel) :: below)
          else Raise TabError
        else Raise IndentationError   (* unindent does not match any outer level *)
      end
  end.

Definition tokenize_indentation (source : list src_line)
  : result (list (nat * nat)) :=
  for_each (λ stack line,
              match kind line with
              | Code => indent_step stack (leading line)
              | Inside | Blank => Ok stack
              end)
           [(0, 0)] source.

(** [import module]: nothing of the module exists unless its source
    tokenizes. *)
Definition import_module (source : list src_line) : result unit :=
  _ ← tokenize_indentation source; Ok ().

(** [dfttk/structure_builders/dilute.py], line by line: line 1 and the
    imports, the [def] on line 10, the doc string on lines 11 to 23 behind a
    tab, the statements of lines 24 to 37 behind spaces, and a last empty
    line. *)
Definition dilute_py : list src_line :=
  [ mkLine Code (ws 0 0); mkLine Code (ws 0 0); mkLine Code (ws 0 0);   (* 1-3 *)
    mkLine Code (ws 0 0); mkLine Code (ws 0 0); mkLine Code (ws 0 0);   (* 4-6 *)
    mkLine Code (ws 0 0); mkLine Code (ws 0 0); mkLine Code (ws 0 0);   (* 7-9 *)
    mkLine Code (ws 0 0); mkLine Code (ws 1 0); mkLine Inside (ws 1 0);   (* 10-12 *)
    mkLine Inside (ws 0 0); mkLine Inside (ws 1 0); mkLine Inside (ws 1 0);   (* 13-15 *)
    mkLine Inside (ws 1 0); mkLine Inside (ws 0 0); mkLine Inside (ws 1 0);   (* 16-18 *)
    mkLine Inside (ws 0 0); mkLine Inside (ws 1 0); mkLine Inside (ws 1 0);   (* 19-21 *)
    mkLine Inside (ws 1 0); mkLine Inside (ws 1 0); mkLine Code (ws 0 4);   (* 22-24 *)
    mkLine Code (ws 0 4); mkLine Code (ws 0 8); mkLine Code (ws 0 8);   (* 25-27 *)
    mkLine Code (ws 0 8); mkLine Code (ws 0 8); mkLine Code (ws 0 8);   (* 28-30 *)
    mkLine Code (ws 0 12); mkLine Code (ws 0 12); mkLine Code (ws 0 12);   (* 31-33 *)
    mkLine Code (ws 0 16); mkLine Code (ws 0 20); mkLine Code (ws 0 20);   (* 34-36 *)
    mkLine Code (ws 0 4); mkLine Blank (ws 0 0) ].   (* 37-38 *)

(** [dfttk/structure_builders/endmembers.py], line by line: tabs throughout. *)
Definition endmembers_py : list src_line :=
  [ mkLine Code (ws 0 0); mkLine Code (ws 0 0); mkLine Code (ws 0 0);   (* 1-3 *)
    mkLine Code (ws 0 0); mkLine Code (ws 0 0); mkLine Code (ws 0 0);   (* 4-6 *)
    mkLine Code (ws 0 0); mkLine Code (ws 0 0); mkLine Blank (ws 0 0);   (* 7-9 *)
    mkLine Code (ws 0 0); mkLine Code (ws 1 0); mkLine Inside (ws 1 0);   (* 10-12 *)
    mkLine Inside (ws 0 0); mkLine Inside (ws 1 0); mkLine Inside (ws 1 0);   (* 13-15 *)
    mkLine Inside (ws 1 0); mkLine Inside (ws 0 0); mkLine Inside (ws 1 0);   (* 16-18 *)
    mkLine Inside (ws 2 0); mkLine Inside (ws 2 0); mkLine Inside (ws 2 0);   (* 19-21 *)
    mkLine Inside (ws 0 0); mkLine Inside (ws 1 0); mkLine Inside (ws 1 0);   (* 22-24 *)
    mkLine Inside (ws 0 0); mkLine Inside (ws 1 0); mkLine Inside (ws 0 0);   (* 25-27 *)
    mkLine Inside (ws 1 0); mkLine Inside (ws 2 0); mkLine Inside (ws 1 0);   (* 28-30 *)
    mkLine Code (ws 1 0); mkLine Code (ws 1 0); mkLine Code (ws 1 0);   (* 31-33 *)
    mkLine Code (ws 1 0); mkLine Code (ws 2 0); mkLine Code (ws 1 0);   (* 34-36 *)
    mkLine Code (ws 2 0); mkLine Code (ws 1 0); mkLine Code (ws 1 0);   (* 37-39 *)
    mkLine Code (ws 2 0); mkLine Code (ws 2 0); mkLine Code (ws 2 0);   (* 40-42 *)
    mkLine Code (ws 1 0); mkLine Blank (ws 0 0); mkLine Code (ws 0 0);   (* 43-45 *)
    mkLine Code (ws 1 0); mkLine Inside (ws 1 0); mkLine Inside (ws 0 0);   (* 46-48 *)
    mkLine Inside (ws 1 0); mkLine Inside (ws 1 0); mkLine Inside (ws 1 0);   (* 49-51 *)
    mkLine Inside (ws 0 0); mkLine Inside (ws 1 0); mkLine Inside (ws 2 0);   (* 52-54 *)
    mkLine Inside (ws 2 0); mkLine Inside (ws 2 0); mkLine Inside (ws 1 0);   (* 55-57 *)
    mkLine Inside (ws 1 0); mkLine Inside (ws 1 0); mkLine Inside (ws 1 0);   (* 58-60 *)
    mkLine Inside (ws 0 0); mkLine Inside (ws 1 0); mkLine Inside (ws 2 0);   (* 61-63 *)
    mkLine Inside (ws 1 0); mkLine Code (ws 1 0); mkLine Code (ws 2 0);   (* 64-66 *)
    mkLine Code (ws 1 0); mkLine Code (ws 2 0); mkLine Code (ws 1 0);   (* 67-69 *)
    mkLine Code (ws 1 0); mkLine Code (ws 2 0); mkLine Code (ws 2 0);   (* 70-72 *)
    mkLine Code (ws 1 0); mkLine Code (ws 1 0); mkLine Code (ws 2 0);   (* 73-75 *)
    mkLine Code (ws 3 0); mkLine Code (ws 4 0); mkLine Code (ws 2 0);   (* 76-78 *)
    mkLine Code (ws 1 0); mkLine Code (ws 1 0); mkLine Blank (ws 0 0);   (* 79-81 *)
    mkLine Blank (ws 0 0); mkLine Code (ws 0 0); mkLine Code (ws 1 0);   (* 82-84 *)
    mkLine Inside (ws 1 0); mkLine Inside (ws 0 0); mkLine Inside (ws 1 0);   (* 85-87 *)
    mkLine Inside (ws 1 0); mkLine Inside (ws 1 0); mkLine Inside (ws 0 0);   (* 88-90 *)
    mkLine Inside (ws 1 0); mkLine Inside (ws 2 0); mkLine Inside (ws 2 0);   (* 91-93 *)
    mkLine Inside (ws 0 0); mkLine Inside (ws 1 0); mkLine Inside (ws 2 0);   (* 94-96 *)
    mkLine Inside (ws 0 0); mkLine Inside (ws 1 0); mkLine Inside (ws 1 0);   (* 97-99 *)
    mkLine Inside (ws 1 0); mkLine Inside (ws 2 0); mkLine Inside (ws 1 0);   (* 100-102 *)
    mkLine Code (ws 1 0); mkLine Code (ws 1 0); mkLine Code (ws 1 0);   (* 103-105 *)
    mkLine Code (ws 2 0); mkLine Code (ws 1 0); mkLine Code (ws 1 0);   (* 106-108 *)
    mkLine Code (ws 2 0); mkLine Code (ws 1 0); mkLine Blank (ws 0 0) ].   (* 109-111 *)

(** ** Structures *)

Section Model.
Context {Lattice Coords : Type}.

(** A site as [Structure.as_dict()] lays it out: [species[0]['element']],
    the position, and the [properties] bag.  Occupancy is always that of a
    single element. *)
Record Site : Type := mkSite {
  element : string;
  coords : Coords;
  properties : gmap string string
}.

Record Structure : Type := mkStructure {
  lattice : Lattice;
  sites : list Site
}.

Definition set_element (e : string) (site : Site) : Site :=
  mkSite e (coords site) (properties site).

Definition with_sites (s : Structure) (l : list Site) : Structure :=
  mkStructure (lattice s) l.

(** [structure.species] *)
Definition species (s : Structure) : list string := element <$> sites s.

(** What [SpacegroupAnalyzer(structure).get_symmetry_dataset()] is read for. *)
Record SymmetryDataset : Type := mkDataset {
  wyckoffs : list string;
  equivalent_atoms : list Z
}.

(** *** The object store *)

Definition ref : Type := positive.

(** Computations that read and mutate structure objects and may raise; the
    store survives an exception. *)
Definition M (A : Type) : Type :=
  gmap ref Structure → result A * gmap ref Structure.

#[global] Instance M_ret : MRet M := λ A a h, (Ok a, h).
#[global] Instance M_bind : MBind M := λ A B f m h,
  match m h with
  | (Ok a, h') => f a h'
  | (Raise e, h') => (Raise e, h')
  end.

Definition lift {A} (r : result A) : M A := λ h, (r, h).

(** A [for] loop whose body reads and writes the store. *)
Fixpoint for_each_M {A St : Type} (body : St → A → M St) (s : St) (l : list A)
  : M St :=
  match l with
  | [] => mret s
  | x :: l' => s' ← body s x; for_each_M body s' l'
  end.

Definition deref (r : ref) : M Structure := λ h,
  match h !! r with
  | Some s => (Ok s, h)
  | None => (Raise ReferenceError, h)
  end.

(** [Structure.replace_species(mapping)] on the structure value: every site
    whose species is a key of the mapping takes the mapped species. *)
Definition replace_species_in (mapping : gmap string string) (s : Structure)
  : Structure :=
  with_sites s
    ((λ site, set_element (default (element site) (mapping !! element site)) site)
       <$> sites s).

(** The method itself updates the object it is called on. *)
Definition replace_species (r : ref) (mapping : gmap string string) : M unit :=
  λ h, match h !! r with
       | Some s => (Ok (), <[r := replace_species_in mapping s]> h)
       | None => (Raise ReferenceError, h)
       end.

(** ** endmembers.py *)

Section Symmetry.
(** The symmetry analysis collaborator. *)
Variable get_symmetry_dataset : Structure → result SymmetryDataset.

(** One turn of the loop of [get_sublattice_information]: the state is
    [site_list] and [subl_model_name], the latter unbound before the first
    turn. *)
Definition sublattice_loop_body (true_sublattice_sites : list string)
    (st : list (gmap string string) * option (list string)) (i : string)
  : list (gmap string string) * option (list string) :=
  let site_dict : gmap string string := {[ "sublattice_sites" := i ]} in
  (st.1 ++ [site_dict], Some (sorted_set true_sublattice_sites)).

Definition get_sublattice_information (structure : ref)
    (equivalent_wyckoff_sites : option (gmap string string))
  : M (list (gmap string string) * list string) :=
  s ← deref structure;
  _ ← replace_species structure (dict_of_pairs ((λ sp, (sp, "H")) <$> species s));
  s ← deref structure;
  ds ← lift (get_symmetry_dataset s);
  let wyckoff_sites := wyckoffs ds in
  let true_sublattice_sites :=
    match equivalent_wyckoff_sites with
    | Some m => (λ i, default i (m !! i)) <$> wyckoff_sites
    | None => wyckoff_sites
    end in
  let st := foldl (sublattice_loop_body true_sublattice_sites) ([], None)
                  true_sublattice_sites in
  match st.2 with
  | Some subl_model_name => mret (st.1, subl_model_name)
  | None => lift (Raise UnboundLocalError)
  end.

(** [structure.as_dict()] builds new dictionaries for the sites and their
    species, but puts each site's own [properties] dictionary into the
    serialised site.  [update] on it therefore also changes the property bag
    of site [i] of the structure object. *)
Definition update_properties (r : ref) (i : nat) (site_dict : gmap string string)
  : M unit :=
  λ h, match h !! r with
       | Some s =>
         (Ok (),
          <[r := with_sites s
                   (alter (λ site, mkSite (element site) (coords site)
                                          (site_dict ∪ properties site))
                          i (sites s))]> h)
       | None => (Raise ReferenceError, h)
       end.

(** What a turn of the first loop of [get_templates] does to [dict_struct]:
    the property bag is updated and the label becomes the species. *)
Definition mark_site (site_list : list (gmap string string))
    (dict_struct : Structure) (i : nat) : result Structure :=
  match site_list !! i with
  | None => Raise IndexError
  | Some site_dict =>
    match site_dict !! "sublattice_sites" with
    | None => Raise KeyError
    | Some label =>
      Ok (with_sites dict_struct
            (alter (λ site, mkSite label (coords site) (site_dict ∪ properties site))
                   i (sites dict_struct)))
    end
  end.

(** A turn of the first loop: [site_list[i]] is evaluated, the shared
    property bag is updated, then the species of the serialised site is
    set. *)
Definition mark_site_shared (structure : ref)
    (site_list : list (gmap string string)) (dict_struct : Structure) (i : nat)
  : M Structure :=
  match site_list !! i with
  | None => lift (Raise IndexError)
  | Some site_dict =>
    _ ← update_properties structure i site_dict;
    lift (mark_site site_list dict_struct i)
  end.

(** Second loop of [get_templates]; the state is [dict_struct] and
    [template_configuration].  [Element.from_Z(i+1)] is pure, so evaluating
    it once per turn raises exactly when the source does. *)
Definition assign_placeholder (true_sublattices : list string)
    (st : Structure * list string) (i : nat) : result (Structure * list string) :=
  match true_sublattices !! i with
  | None => Raise IndexError
  | Some name =>
    placeholder ← from_Z (i + 1);
    Ok (with_sites st.1
          ((λ site, if decide (element site = name)
                    then set_element placeholder site else site) <$> sites st.1),
        st.2 ++ [placeholder])
  end.

Definition get_templates (structure : ref)
    (equivalent_wyckoff_sites : option (gmap string string))
  : M (Structure * list string) :=
  '(site_list, true_sublattices) ←
     match equivalent_wyckoff_sites with
     | Some m => get_sublattice_information structure (Some m)
     | None => get_sublattice_information structure None
     end;
  dict_struct ← deref structure;
  dict_struct ← for_each_M (mark_site_shared structure site_list) dict_struct
                           (seq 0 (length (sites dict_struct)));
  '(dict_struct, template_configuration) ←
     lift (for_each (assign_placeholder true_sublattices) (dict_struct, [])
                    (seq 0 (length true_sublattices)));
  mret (dict_struct, template_configuration).

End Symmetry.

(** ** dilute.py *)

Section Dilute.
(** The statements of lines 24 to 37, which no call reaches. *)
Variable dilute_substitution_body :
  list Structure → list string → result (list Structure).

(** A call of [dilute_substitution] goes through the import of its module. *)
Definition dilute_substitution (structures : list Structure)
    (element_dict : list string) : result (list Structure) :=
  _ ← import_module dilute_py;
  dilute_substitution_body structures element_dict.

End Dilute.

(** ** The endmember generator *)

Section Endmembers.
(** The substitution engine, [substitutions.substitute_configuration]. *)
Variable substitute_configuration :
  Structure → list (list string) → list (list string) → result Structure.

Definition get_endmembers_with_templates (template_structure : Structure)
    (template_configuration : list string)
    (sublattice_configuration : list (list string)) : result (list Structure) :=
  let element_dict : gmap string (list string) :=
    dict_of_pairs (zip template_configuration sublattice_configuration) in
  axes ← mapM (λ k, from_option Ok (Raise TypeError) (element_dict !! k))
              (sorted (elements (dom element_dict)));
  let subl_combination := product axes in
  mapM (λ i, substitute_configuration template_structure
               [template_configuration] [i])
       subl_combination.

End Endmembers.

(** Modelled from the spec: the Substitution Engine
    ([dfttk.structure_builders.substitutions.substitute_configuration], not
    among the sources).  Given a structure, a template configuration and a
    concrete element assignment positionally aligned to it, it returns a new
    structure with every site's placeholder species replaced by the
    corresponding concrete element, keeping site count, positions and
    property bags; it fails on a length mismatch between the template
    configuration and the assignment, and when a placeholder is carried by
    no site of the template structure. *)
Definition substitute_configuration (template_structure : Structure)
    (template_config config : list (list string)) : result Structure :=
  if decide (length <$> template_config = length <$> config) then
    let placeholders := concat template_config in
    let assignment : gmap string string :=
      list_to_map (zip placeholders (concat config)) in
    if decide (Forall (λ p, p ∈ species template_structure) placeholders) then
      Ok (replace_species_in assignment template_structure)
    else Raise SubstitutionError
  else Raise SubstitutionError.

End Model.

(** ** Reference descriptions

    What the operations are meant to compute, in the words of the design
    notes; the properties below compare the code with them. *)

(** [n1 * n2 * ... * nk] for lists of sizes [n1], ..., [nk]. *)
Definition product_of_sizes {A} (lists : list (list A)) : nat :=
  foldr (λ ax n, length ax * n) 1 lists.

Section Reference.
Context {Lattice Coords : Type}.
Abbreviation Site := (@Site Coords).
Abbreviation Structure := (@Structure Lattice Coords).

(** The geometry-only probe: every species replaced by the dummy element. *)
Definition normalized (s : Structure) : Structure :=
  with_sites s (set_element "H" <$> sites s).

(** Two structures that differ at most in their per-site species. *)
Definition same_geometry (s1 s2 : Structure) : Prop :=
  lattice s1 = lattice s2 ∧
  coords <$> sites s1 = coords <$> sites s2 ∧
  properties <$> sites s1 = properties <$> sites s2.

(** The equivalence map applied label-wise; absent labels pass through. *)
Definition merged_labels (equivalent_wyckoff_sites : option (gmap string string))
    (wyckoff_sites : list string) : list string :=
  match equivalent_wyckoff_sites with
  | Some m => (λ i, default i (m !! i)) <$> wyckoff_sites
  | None => wyckoff_sites
  end.

Definition site_dict (label : string) : gmap string string :=
  {[ "sublattice_sites" := label ]}.

(** A site after the first loop of [get_templates]: the label as marker in
    the species field and recorded in the property bag. *)
Definition marked (site : Site) (label : string) : Site :=
  mkSite label (coords site) (site_dict label ∪ properties site).

(** Every site carries the placeholder of its own sublattice: site [j], of
    label [labels !! j], carries [tc !! k] where [k] is the rank of that label
    among the names. *)
Definition own_placeholder (names labels : list string) (ts : Structure)
    (tc : list string) : Prop :=
  ∀ j site, sites ts !! j = Some site →
    ∃ label k, labels !! j = Some label ∧ names !! k = Some label ∧
               tc !! k = Some (element site).

(** No sublattice name is the symbol of a placeholder handed out to an
    earlier sublattice: the name of rank [b] is none of the first [b]
    elements. *)
Definition no_collision (names : list string) : Prop :=
  Forall (λ p : nat * string, p.2 ∉ take p.1 periodic_table) (imap pair names).

(** The structure with the label of each site written into its property
    bag under [sublattice_sites], for the sites that have a label. *)
Definition annotated (labels : list string) (s : Structure) : Structure :=
  with_sites s
    (imap (λ i site,
             match labels !! i with
             | Some label =>
               mkSite (element site) (coords site) (site_dict label ∪ properties site)
             | None => site
             end)
          (sites s)).

(** The same for the sites from [a] up to, not including, [b]. *)
Definition annotated_range (a b : nat) (labels : list string) (s : Structure)
  : Structure :=
  with_sites s
    (imap (λ i site,
             if decide (a ≤ i < b) then
               match labels !! i with
               | Some label =>
                 mkSite (element site) (coords site) (site_dict label ∪ properties site)
               | None => site
               end
             else site)
          (sites s)).

End Reference.

(** The Wyckoff letters a symmetry analysis hands out: [a] to [z], then
    [A]. *)
Definition wyckoff_alphabet : list string :=
  [ "a"; "b"; "c"; "d"; "e"; "f"; "g"; "h"; "i"; "j"; "k"; "l"; "m";
    "n"; "o"; "p"; "q"; "r"; "s"; "t"; "u"; "v"; "w"; "x"; "y"; "z"; "A" ].

(** ** Concrete structures and a deterministic symmetry fake *)

Module Fixtures.

(** A cubic cell given by its edge, and positions in quarters of the cell. *)
Definition Lattice : Type := Z.
Definition Coords : Type := (Z * Z * Z)%type.

Definition site (e : string) (x y z : Z) : @Site Coords :=
  mkSite e (x, y, z) ∅.

Definition structure (l : list (@Site Coords)) : @Structure Lattice Coords :=
  mkStructure 4%Z l.

(** The fake reads the Wyckoff letter of a site off its first coordinate and
    names each equivalent-atom group by the first site carrying the letter;
    species play no part. *)
Definition wyckoff_letters : list string :=
  ["a"; "b"; "c"; "d"; "e"; "f"; "g"; "h"].

Definition letter_of (s : @Site Coords) : string :=
  default "a" (wyckoff_letters !! Z.to_nat (coords s).1.1).

Definition first_index (l : list string) (x : string) : Z :=
  Z.of_nat (default 0 (fst <$> list_find (λ y, y = x) l)).

Definition fake_symmetry (s : @Structure Lattice Coords) : result SymmetryDataset :=
  let ws := letter_of <$> sites s in
  Ok (mkDataset ws (first_index ws <$> ws)).

(** Rock salt: two orbits. *)
Definition rocksalt : @Structure Lattice Coords :=
  structure [site "Na" 0 0 0; site "Cl" 1 2 2].

Definition sylvite : @Structure Lattice Coords :=
  structure [site "K" 0 0 0; site "Br" 1 2 2].

(** Three orbits with letters a, b and f. *)
Definition three_orbits : @Structure Lattice Coords :=
  structure [site "Fe" 0 0 0; site "Cr" 1 0 0; site "Ni" 5 0 0; site "Cr" 1 2 2].

(** Four orbits on five sites. *)
Definition four_orbits : @Structure Lattice Coords :=
  structure [site "Fe" 0 0 0; site "Cr" 1 0 0; site "Ni" 2 0 0; site "Mo" 3 0 0;
             site "Fe" 0 2 2].

(** Three equivalent-atom groups, "Na" on every representative site. *)
Definition three_groups : @Structure Lattice Coords :=
  structure [site "Na" 0 0 0; site "Na" 1 0 0; site "Cl" 1 2 2; site "Na" 2 0 0].

(** No site at all. *)
Definition no_sites : @Structure Lattice Coords := structure [].

Definition store (s : @Structure Lattice Coords)
  : gmap ref (@Structure Lattice Coords) := {[ 1%positive := s ]}.

(** The species of the structures a call returned. *)
Definition species_of (r : result (list (@Structure Lattice Coords)))
  : result (list (list string)) :=
  match r with
  | Ok l => Ok (species <$> l)
  | Raise e => Raise e
  end.

(** Collaborators that break their contract: an analysis that fails, one that
    returns a single label whatever the number of sites, and one that returns
    119 distinct labels. *)
Definition failing_symmetry (s : @Structure Lattice Coords)
  : result SymmetryDataset := Raise SymmetryError.

Definition short_symmetry (s : @Structure Lattice Coords)
  : result SymmetryDataset := Ok (mkDataset ["a"] [0%Z]).

Definition crowded_symmetry (s : @Structure Lattice Coords)
  : result SymmetryDataset :=
  Ok (mkDataset ((λ n, String (Ascii.ascii_of_nat n) EmptyString) <$> seq 1 119) []).

(** A site that already carries a [sublattice_sites] property and a magnetic
    moment. *)
Definition tagged : @Structure Lattice Coords :=
  mkStructure 4%Z
    [mkSite "Fe" (0, 0, 0)%Z {[ "sublattice_sites" := "old"; "magmom" := "5" ]};
     site "O" 1 2 2].

End Fixtures.

(** * Properties *)

(** ** The error monad *)

Lemma mapM_result_Ok {A B} (f : A → result B) (g : A → B) l :
  (∀ x, x ∈ l → f x = Ok (g x)) → mapM f l = Ok (g <$> l).
Proof.
  induction l as [|x l IH]; intros H; simpl; [done|].
  rewrite (H x) by left. simpl.
  rewrite IH; [done|]. intros y Hy. apply H. by right.
Qed.

Lemma mapM_result_Raise {A B} (f : A → result B) l e :
  mapM f l = Raise e → ∃ x, x ∈ l ∧ f x = Raise e.
Proof.
  induction l as [|x l IH]; simpl; [done|].
  destruct (f x) as [y|e'] eqn:Hx; simpl.
  - destruct (mapM f l) as [k'|e'] eqn:Hl; simpl; [done|].
    intros [= ->]. destruct IH as (z & ? & ?); [done|].
    exists z. split; [by right | done].
  - intros [= ->]. exists x. split; [by left | done].
Qed.

(** ** String order *)

Lemma str_le_lt_eq a b : str_le a b ↔ str_lt a b ∨ a = b.
Proof.
  unfold str_le, str_lt.
  destruct (OrdersEx.String_as_OT.compare_spec a b) as [Heq|Hlt|Hgt].
  - split; [by right | done].
  - split; [by left | done].
  - split; [done|]. intros [?| ->]; [done|].
    exfalso. by eapply (irreflexivity OrdersEx.String_as_OT.lt).
Qed.

Lemma str_lt_irrefl a : ¬ str_lt a a.
Proof. apply (irreflexivity OrdersEx.String_as_OT.lt). Qed.

Lemma str_lt_trans a b c : str_lt a b → str_lt b c → str_lt a c.
Proof. apply (transitivity (R := OrdersEx.String_as_OT.lt)). Qed.

#[global] Instance str_le_total : Total str_le.
Proof.
  intros a b. rewrite !str_le_lt_eq.
  destruct (OrdersEx.String_as_OT.compare_spec a b) as [Heq|Hlt|Hgt]; auto.
Qed.

#[global] Instance str_le_trans : Transitive str_le.
Proof.
  intros a b c. rewrite !str_le_lt_eq.
  intros [H1| ->] [H2| ->]; eauto using str_lt_trans.
Qed.

#[global] Instance str_le_antisymm : AntiSymm (=) str_le.
Proof.
  intros a b. rewrite !str_le_lt_eq.
  intros [H1|H1] [H2|H2]; try done.
  exfalso. eapply str_lt_irrefl, str_lt_trans; eauto.
Qed.

Lemma sorted_Permutation l : sorted l ≡ₚ l.
Proof. apply merge_sort_Permutation. Qed.

Lemma sorted_Sorted l : Sorted str_le (sorted l).
Proof. apply (Sorted_merge_sort str_le). Qed.

(** A sorted list is determined by its elements when they are distinct. *)
Lemma sorted_unique l k :
  Sorted str_le k → k ≡ₚ l → sorted l = k.
Proof.
  intros Hk Hp. apply (Sorted_unique str_le); [apply sorted_Sorted | done |].
  by rewrite sorted_Permutation.
Qed.

Lemma sorted_set_Permutation l :
  sorted_set l ≡ₚ elements (list_to_set l : gset string).
Proof. apply sorted_Permutation. Qed.

Lemma sorted_set_elem_of l x : x ∈ sorted_set l ↔ x ∈ l.
Proof.
  rewrite sorted_set_Permutation, elem_of_elements. apply elem_of_list_to_set.
Qed.

Lemma sorted_set_NoDup l : NoDup (sorted_set l).
Proof. rewrite sorted_set_Permutation. apply NoDup_elements. Qed.

Lemma sorted_set_Sorted l : Sorted str_le (sorted_set l).
Proof. apply sorted_Sorted. Qed.

Lemma sorted_set_strict l : StronglySorted str_lt (sorted_set l).
Proof.
  pose proof (sorted_set_NoDup l) as Hnd.
  pose proof (Sorted_StronglySorted _ _ (sorted_set_Sorted l)) as Hs.
  induction Hs as [|x k Hk IH Hx]; [constructor|].
  apply NoDup_cons in Hnd as [Hnx Hnd].
  constructor; [auto|].
  rewrite Forall_forall in Hx |- *. intros y Hy.
  destruct (proj1 (str_le_lt_eq x y) (Hx y Hy)) as [?| ->]; done.
Qed.

Lemma sorted_set_unique l k :
  Sorted str_le k → NoDup k → (∀ x, x ∈ k ↔ x ∈ l) → sorted_set l = k.
Proof.
  intros Hs Hnd Hel. apply sorted_unique; [done|].
  apply NoDup_Permutation; [done | apply NoDup_elements |].
  intros x. rewrite elem_of_elements, elem_of_list_to_set. apply Hel.
Qed.

Lemma sorted_set_NoDup_Permutation l : NoDup l → sorted_set l ≡ₚ l.
Proof.
  intros Hnd. rewrite sorted_set_Permutation.
  apply NoDup_Permutation; [apply NoDup_elements | done |].
  intros x. by rewrite elem_of_elements, elem_of_list_to_set.
Qed.

(** ** Dictionaries, products and counters *)

Lemma dict_of_pairs_list_to_map {V} (pairs : list (string * V)) :
  dict_of_pairs pairs = list_to_map (reverse pairs).
Proof.
  unfold dict_of_pairs. rewrite <- (reverse_involutive pairs) at 1.
  generalize (reverse pairs) as l. intros l.
  induction l as [|[k v] l IH]; [done|].
  rewrite reverse_cons, foldl_app. simpl. by rewrite IH.
Qed.

Lemma dict_of_pairs_dom {V} (pairs : list (string * V)) :
  dom (dict_of_pairs pairs) = list_to_set pairs.*1.
Proof.
  rewrite dict_of_pairs_list_to_map, dom_list_to_map_L.
  apply set_eq. intros x.
  rewrite !elem_of_list_to_set, fmap_reverse. apply elem_of_reverse.
Qed.

Lemma dict_of_pairs_lookup {V} (pairs : list (string * V)) k v :
  NoDup pairs.*1 → (k, v) ∈ pairs → dict_of_pairs pairs !! k = Some v.
Proof.
  intros Hnd Hin. rewrite dict_of_pairs_list_to_map.
  apply elem_of_list_to_map_1.
  - by rewrite fmap_reverse, reverse_Permutation.
  - by apply elem_of_reverse.
Qed.

Lemma bind_ret_fmap {A B} (f : A → B) (l : list A) : (l ≫= λ t, [f t]) = f <$> l.
Proof.
  induction l as [|t l IH]; [done|].
  rewrite bind_cons, fmap_cons, IH. done.
Qed.

Lemma product_cons {A} (ax : list A) (rest : list (list A)) :
  product (ax :: rest) = ax ≫= λ x, (x ::.) <$> product rest.
Proof.
  change (product (ax :: rest)) with (ax ≫= λ x, product rest ≫= λ t, [x :: t]).
  apply list_bind_ext; [|done]. intros x. apply bind_ret_fmap.
Qed.

Lemma product_length {A} (axes : list (list A)) :
  length (product axes) = foldr (λ ax n, length ax * n) 1 axes.
Proof.
  induction axes as [|ax rest IH]; [done|].
  rewrite product_cons. cbn [foldr]. rewrite <- IH. clear IH.
  induction ax as [|x ax IHax]; [done|].
  rewrite bind_cons, length_app, length_fmap, IHax. done.
Qed.

Lemma product_elem_of {A} (axes : list (list A)) (t : list A) :
  t ∈ product axes ↔ Forall2 (λ x ax, x ∈ ax) t axes.
Proof.
  revert t. induction axes as [|ax rest IH]; intros t.
  - cbn [product]. rewrite list_elem_of_singleton.
    split; [intros ->; constructor|]. by intros ->%Forall2_nil_inv_r.
  - rewrite product_cons, list_elem_of_bind. split.
    + intros (x & (t' & -> & Ht')%list_elem_of_fmap & Hx).
      constructor; [done | by apply IH].
    + intros (x & t' & Hx & Ht' & ->)%Forall2_cons_inv_r.
      exists x. split; [|done]. apply list_elem_of_fmap.
      exists t'. split; [done | by apply IH].
Qed.

(** The enumeration order: the tuple at position [a * |product rest| + b]
    takes its first entry at position [a] of the first axis and its tail at
    position [b] of the product of the other axes, so the right-most axis
    varies fastest. *)
Lemma product_lookup {A} (ax : list A) (rest : list (list A)) a b x t :
  ax !! a = Some x → product rest !! b = Some t →
  product (ax :: rest) !! (a * length (product rest) + b) = Some (x :: t).
Proof.
  rewrite product_cons. revert a.
  induction ax as [|y ax IH]; intros a Ha Hb; [done|].
  pose proof (lookup_lt_Some _ _ _ Hb) as Hlt.
  rewrite bind_cons. destruct a as [|a]; simpl in Ha.
  - injection Ha as ->. rewrite lookup_app_l by (rewrite length_fmap; lia).
    rewrite list_lookup_fmap. simpl. by rewrite Hb.
  - rewrite lookup_app_r by (rewrite length_fmap; lia).
    rewrite length_fmap.
    replace (S a * length (product rest) + b - length (product rest))
      with (a * length (product rest) + b) by lia.
    by apply IH.
Qed.

Lemma product_nil_in {A} (axes : list (list A)) :
  [] ∈ axes → product axes = [].
Proof.
  intros Hin. destruct (product axes) as [|t l] eqn:Heq; [done|].
  assert (Ht : t ∈ product axes) by (rewrite Heq; left).
  apply product_elem_of in Ht.
  apply list_elem_of_lookup in Hin as [i Hi].
  destruct (Forall2_lookup_r _ _ _ _ _ Ht Hi) as (x & _ & Hx).
  by apply not_elem_of_nil in Hx.
Qed.

Lemma from_Z_Ok i sym : from_Z (i + 1) = Ok sym ↔ periodic_table !! i = Some sym.
Proof.
  replace (i + 1) with (S i) by lia. unfold from_Z.
  destruct (periodic_table !! i); split; congruence.
Qed.

Lemma periodic_table_NoDup : NoDup periodic_table.
Proof. refine (bool_decide_unpack _ _). vm_compute. exact I. Qed.

(** ** The sublattice modeler *)

Section SublatticeFacts.
Context {Lattice Coords : Type}.
Abbreviation Site := (@Site Coords).
Abbreviation Structure := (@Structure Lattice Coords).
Variable get_symmetry_dataset : Structure → result SymmetryDataset.

Lemma dict_const_lookup (l : list string) (v k : string) :
  dict_of_pairs ((λ sp, (sp, v)) <$> l) !! k = if decide (k ∈ l) then Some v else None.
Proof.
  rewrite dict_of_pairs_list_to_map, <- fmap_reverse.
  assert (H : ∀ l' : list string,
    (list_to_map ((λ sp, (sp, v)) <$> l') : gmap string string) !! k
    = if decide (k ∈ l') then Some v else None).
  { induction l' as [|x l' IH]; [done|].
    rewrite fmap_cons. cbn [list_to_map foldr].
    destruct (decide (x = k)) as [->|Hne].
    - rewrite lookup_insert_eq, decide_True by left. done.
    - rewrite lookup_insert_ne, IH by done.
      destruct (decide (k ∈ l')) as [Hin|Hin].
      + rewrite decide_True by (by right). done.
      + rewrite decide_False; [done|]. intros [?|?]%elem_of_cons; congruence. }
  rewrite H. destruct (decide (k ∈ l)) as [Hin|Hin].
  - rewrite decide_True by (by apply elem_of_reverse). done.
  - rewrite decide_False; [done|]. by rewrite elem_of_reverse.
Qed.

(** Replacing every species present by "H" leaves only "H". *)
Lemma replace_species_H (s : Structure) :
  replace_species_in (dict_of_pairs ((λ sp, (sp, "H")) <$> species s)) s = normalized s.
Proof.
  unfold replace_species_in, normalized. f_equal.
  apply list_fmap_ext. intros i site Hi.
  rewrite dict_const_lookup, decide_True; [done|].
  unfold species. apply list_elem_of_fmap. exists site. split; [done|].
  by eapply list_elem_of_lookup_2.
Qed.

Lemma normalized_same_geometry (s1 s2 : Structure) :
  same_geometry s1 s2 → normalized s1 = normalized s2.
Proof.
  destruct s1 as [lat1 l1], s2 as [lat2 l2].
  unfold same_geometry, normalized, with_sites. simpl.
  intros (-> & Hc & Hp). f_equal.
  revert l2 Hc Hp. induction l1 as [|[e1 c1 p1] l1 IH]; intros [|[e2 c2 p2] l2];
    simpl; try done.
  intros [= -> Hc] [= -> Hp]. unfold set_element at 1 3. simpl.
  f_equal. by apply IH.
Qed.

Lemma sublattice_loop (t : list string) l acc o :
  foldl (sublattice_loop_body t) (acc, o) l
  = (acc ++ (site_dict <$> l),
     match l with [] => o | _ => Some (sorted_set t) end).
Proof.
  revert acc o. induction l as [|i l IH]; intros acc o; simpl.
  - by rewrite app_nil_r.
  - unfold sublattice_loop_body at 2. simpl. rewrite IH, <- app_assoc. simpl.
    f_equal. by destruct l.
Qed.

(** What a call of [get_sublattice_information] does: the caller's object is
    normalised in place, the oracle is asked about the normalised structure,
    and the labels are merged, listed per site and collected. *)
Lemma get_sublattice_information_run (h : gmap ref Structure) r s eqv :
  h !! r = Some s →
  get_sublattice_information get_symmetry_dataset r eqv h =
    (ds ← get_symmetry_dataset (normalized s);
     match merged_labels eqv (wyckoffs ds) with
     | [] => Raise UnboundLocalError
     | labels => Ok (site_dict <$> labels, sorted_set labels)
     end,
     <[r := normalized s]> h).
Proof.
  intros Hr. unfold get_sublattice_information, mbind, M_bind, deref,
    replace_species, lift. rewrite Hr. simpl. rewrite Hr, replace_species_H.
  rewrite lookup_insert_eq.
  destruct (get_symmetry_dataset (normalized s)) as [ds|e]; simpl; [|done].
  fold (merged_labels eqv (wyckoffs ds)).
  rewrite sublattice_loop. simpl.
  destruct (merged_labels eqv (wyckoffs ds)); done.
Qed.

End SublatticeFacts.

Section SublatticeClaims.
Context {Lattice Coords : Type}.
Abbreviation Structure := (@Structure Lattice Coords).
Variable get_symmetry_dataset : Structure → result SymmetryDataset.

Lemma normalized_species (s : Structure) :
  species (normalized s) = replicate (length (sites s)) "H".
Proof.
  unfold species, normalized. simpl.
  induction (sites s) as [|x l IH]; [done|].
  rewrite !fmap_cons, IH. done.
Qed.

Lemma normalized_geometry (s : Structure) : same_geometry (normalized s) s.
Proof.
  unfold same_geometry, normalized. simpl. rewrite <- !list_fmap_compose.
  split_and!; [done | |]; by apply list_fmap_ext.
Qed.

Lemma get_sublattice_information_labels (h : gmap ref Structure) r s eqv ds :
  h !! r = Some s → get_symmetry_dataset (normalized s) = Ok ds →
  (get_sublattice_information get_symmetry_dataset r eqv h).1
  = match wyckoffs ds with
    | [] => Raise UnboundLocalError
    | _ => Ok (site_dict <$> merged_labels eqv (wyckoffs ds),
               sorted_set (merged_labels eqv (wyckoffs ds)))
    end.
Proof.
  intros Hr Hds. rewrite (get_sublattice_information_run _ h r s eqv Hr).
  rewrite Hds. simpl. destruct (wyckoffs ds) as [|w ws]; by destruct eqv.
Qed.

(** C9: two structures with the same lattice, positions and property bags
    but different species get the same [(site_list, sublattice_names)], or
    the same exception, from [get_sublattice_information]. *)
Theorem C9_chemistry_insensitive (h1 h2 : gmap ref Structure) r1 r2 s1 s2 eqv :
  h1 !! r1 = Some s1 → h2 !! r2 = Some s2 → same_geometry s1 s2 →
  (get_sublattice_information get_symmetry_dataset r1 eqv h1).1
  = (get_sublattice_information get_symmetry_dataset r2 eqv h2).1.
Proof.
  intros H1 H2 Hg.
  rewrite (get_sublattice_information_run _ h1 r1 s1 eqv H1).
  rewrite (get_sublattice_information_run _ h2 r2 s2 eqv H2).
  simpl. by rewrite (normalized_same_geometry s1 s2 Hg).
Qed.

(** C10: with a non-empty list of Wyckoff labels the call returns the
    per-site dictionaries and the sorted names; with an empty list it raises
    [UnboundLocalError] instead of returning two empty lists. *)
Theorem C10_requires_a_site (h : gmap ref Structure) r s eqv ds :
  h !! r = Some s → get_symmetry_dataset (normalized s) = Ok ds →
  (wyckoffs ds ≠ [] →
     (get_sublattice_information get_symmetry_dataset r eqv h).1
     = Ok (site_dict <$> merged_labels eqv (wyckoffs ds),
           sorted_set (merged_labels eqv (wyckoffs ds)))) ∧
  (wyckoffs ds = [] →
     (get_sublattice_information get_symmetry_dataset r eqv h).1
     = Raise UnboundLocalError ∧
     (get_sublattice_information get_symmetry_dataset r eqv h).1 ≠ Ok ([], [])).
Proof.
  intros Hr Hds. rewrite (get_sublattice_information_labels h r s eqv ds Hr Hds).
  split.
  - intros Hne. by destruct (wyckoffs ds).
  - intros ->. done.
Qed.

(** C5: with an equivalence map, each site's label is looked up in the map
    and kept when absent; the names are the distinct mapped labels in
    strictly increasing order; labels a, b, f under the map b ↦ f give the
    two names a and f. *)
Theorem C5_equivalence_map (h : gmap ref Structure) r s (m : gmap string string) ds :
  h !! r = Some s → get_symmetry_dataset (normalized s) = Ok ds →
  wyckoffs ds ≠ [] →
  ∃ names,
    (get_sublattice_information get_symmetry_dataset r (Some m) h).1
    = Ok ((λ w, site_dict (default w (m !! w))) <$> wyckoffs ds, names) ∧
    StronglySorted str_lt names ∧
    (∀ x, x ∈ names ↔ ∃ w, w ∈ wyckoffs ds ∧ x = default w (m !! w)) ∧
    (m = {[ "b" := "f" ]} → (∀ w, w ∈ wyckoffs ds ↔ w ∈ ["a"; "b"; "f"]) →
       names = ["a"; "f"]).
Proof.
  intros Hr Hds Hne.
  pose proof (get_sublattice_information_labels h r s (Some m) ds Hr Hds) as Hok.
  destruct (wyckoffs ds) as [|w0 ws0] eqn:Hwy; [done|]. rewrite <- Hwy in *.
  simpl in Hok.
  exists (sorted_set ((λ i, default i (m !! i)) <$> wyckoffs ds)).
  split_and!.
  - rewrite Hok. by rewrite <- list_fmap_compose.
  - apply sorted_set_strict.
  - intros x. rewrite sorted_set_elem_of, list_elem_of_fmap.
    split; intros (w & ? & ?); exists w; done.
  - intros -> Hws. apply sorted_set_unique.
    + repeat constructor; by vm_compute.
    + refine (bool_decide_unpack _ _). vm_compute. exact I.
    + intros x. rewrite list_elem_of_fmap. split.
      * intros [->|[->|[]%elem_of_nil]%elem_of_cons]%elem_of_cons.
        -- exists "a". split; [done | apply Hws; left].
        -- exists "f". split; [done | apply Hws; do 2 right; left].
      * intros (w & -> & Hw). apply Hws in Hw.
        repeat (apply elem_of_cons in Hw as [->|Hw]); [| | |by apply elem_of_nil in Hw].
        -- left.
        -- right. left.
        -- right. left.
Qed.

End SublatticeClaims.

(** ** Templates *)

Lemma for_each_seq_inv {St} (body : St → nat → result St) (Inv : nat → St → Prop) n :
  ∀ a s, Inv a s →
    (∀ i s, a ≤ i < a + n → Inv i s → ∃ s', body s i = Ok s' ∧ Inv (S i) s') →
    ∃ s', for_each body s (seq a n) = Ok s' ∧ Inv (a + n) s'.
Proof.
  induction n as [|n IH]; intros a s Hs Hstep; simpl.
  - exists s. by rewrite Nat.add_0_r.
  - destruct (Hstep a s) as (s1 & -> & H1); [lia | done |]. simpl.
    destruct (IH (S a) s1 H1) as (s' & -> & H').
    + intros i s2 Hi. apply Hstep. lia.
    + exists s'. by replace (a + S n) with (S a + n) by lia.
Qed.

Lemma no_collision_lookup names a b sym :
  no_collision names → a < b → periodic_table !! a = Some sym →
  names !! b ≠ Some sym.
Proof.
  unfold no_collision. rewrite Forall_lookup. intros H Hab Ha Hb.
  apply (H b (b, sym)).
  - by rewrite list_lookup_imap, Hb.
  - simpl. apply list_elem_of_lookup. exists a. by rewrite lookup_take_lt.
Qed.

Section TemplateFacts.
Context {Lattice Coords : Type}.
Abbreviation Site := (@Site Coords).
Abbreviation Structure := (@Structure Lattice Coords).
Variable get_symmetry_dataset : Structure → result SymmetryDataset.

(** The first loop marks site [j] with label [j]. *)
Lemma mark_loop (labels : list string) (d0 : Structure) :
  length (sites d0) ≤ length labels →
  for_each (mark_site (site_dict <$> labels)) d0 (seq 0 (length (sites d0)))
  = Ok (with_sites d0 (zip_with marked (sites d0) labels)).
Proof.
  intros Hlen.
  pose (Inv := λ (i : nat) (d : Structure),
    lattice d = lattice d0 ∧
    ∀ j, sites d !! j =
         if decide (j < i)
         then site ← sites d0 !! j; label ← labels !! j; Some (marked site label)
         else sites d0 !! j).
  destruct (for_each_seq_inv (mark_site (site_dict <$> labels)) Inv
              (length (sites d0)) 0 d0) as (d & -> & Hlat & Hd).
  - split; [done|]. intros j. by rewrite decide_False by lia.
  - intros i d [_ Hi] [Hlat Hd]. simpl in Hi.
    destruct (lookup_lt_is_Some_2 labels i) as [label Hlabel]; [lia|].
    unfold mark_site. rewrite list_lookup_fmap, Hlabel. simpl.
    unfold site_dict at 1. rewrite lookup_singleton_eq.
    eexists. split; [done|]. split; [done|]. intros j. simpl.
    destruct (decide (j = i)) as [->|Hne].
    + rewrite list_lookup_alter_eq, Hd.
      rewrite (decide_False (P := i < i)), (decide_True (P := i < S i)) by lia.
      destruct (sites d0 !! i); simpl; [by rewrite Hlabel | done].
    + rewrite list_lookup_alter_ne, Hd by done.
      destruct (decide (j < i)), (decide (j < S i)); try done; lia.
  - f_equal. destruct d as [lat l]. simpl in *. subst lat.
    unfold with_sites. f_equal. apply list_eq. intros j.
    rewrite Hd, lookup_zip_with. simpl.
    destruct (decide (j < length (sites d0))) as [|Hge]; [done|].
    rewrite (lookup_ge_None_2 (sites d0) j) by lia. done.
Qed.

(** The second loop, as long as the table lasts and no name is taken for a
    placeholder handed out before. *)
Lemma assign_loop (names : list string) (d1 : Structure) :
  NoDup names → length names ≤ length periodic_table → no_collision names →
  Forall (λ site, element site ∈ names) (sites d1) →
  ∃ d, for_each (assign_placeholder names) (d1, []) (seq 0 (length names))
       = Ok (d, take (length names) periodic_table) ∧
       lattice d = lattice d1 ∧
       Forall2 (λ site site1 : Site,
                  coords site = coords site1 ∧ properties site = properties site1 ∧
                  ∃ k, names !! k = Some (element site1) ∧
                       periodic_table !! k = Some (element site))
               (sites d) (sites d1).
Proof.
  intros Hnd Hlen Hcoll Hin.
  pose (R := λ (i : nat) (site site1 : Site),
    coords site = coords site1 ∧ properties site = properties site1 ∧
    ∃ k, names !! k = Some (element site1) ∧
         if decide (k < i) then periodic_table !! k = Some (element site)
         else element site = element site1).
  pose (Inv := λ (i : nat) (st : Structure * list string),
    st.2 = take i periodic_table ∧ lattice st.1 = lattice d1 ∧
    Forall2 (R i) (sites st.1) (sites d1)).
  destruct (for_each_seq_inv (assign_placeholder names) Inv (length names) 0 (d1, []))
    as ([d cfg] & Hrun & Hcfg & Hlat & HR).
  - split_and!; [done | done |]. simpl.
    apply Forall2_same_length_lookup. split; [done|].
    intros j site site1 Hj Hj1. rewrite Hj in Hj1. injection Hj1 as <-.
    split_and!; [done | done |].
    rewrite Forall_forall in Hin.
    destruct (proj1 (list_elem_of_lookup names (element site))) as [k Hk].
    { apply Hin. by eapply list_elem_of_lookup_2. }
    exists k. split; [done|]. by rewrite decide_False by lia.
  - intros i [d cfg] [_ Hi] (Hcfg & Hlat & HR). simpl in Hi, Hcfg, Hlat, HR.
    destruct (lookup_lt_is_Some_2 names i) as [name Hname]; [lia|].
    destruct (lookup_lt_is_Some_2 periodic_table i) as [P HP]; [lia|].
    unfold assign_placeholder. rewrite Hname.
    rewrite (proj2 (from_Z_Ok i P) HP). simpl.
    eexists. split; [done|]. unfold Inv. cbn [fst snd with_sites sites lattice].
    split_and!.
    + rewrite Hcfg. by rewrite (take_S_r _ _ _ HP).
    + done.
    + apply Forall2_fmap_l. eapply Forall2_impl; [exact HR|].
      intros site site1 (Hc & Hp & k & Hk & Hel). unfold compose, R.
      destruct (decide (k < i)) as [Hlt|Hge].
      * rewrite decide_False.
        { split_and!; [done | done |]. exists k. split; [done|].
          by rewrite decide_True by lia. }
        intros Heq. eapply (no_collision_lookup names k i (element site));
          [done | done | done |]. by rewrite Heq.
      * destruct (decide (k = i)) as [->|Hne].
        { rewrite decide_True by congruence.
          split_and!; [done | done |]. exists i. split; [done|].
          by rewrite decide_True by lia. }
        rewrite decide_False.
        { split_and!; [done | done |]. exists k. split; [done|].
          by rewrite decide_False by lia. }
        intros Heq. apply Hne. eapply NoDup_lookup; [done | done |].
        by rewrite Hname, <- Heq, Hel.
  - simpl in Hcfg, Hlat, HR, Hrun. subst cfg. exists d. split; [done|]. split; [done|].
    eapply Forall2_impl; [exact HR|].
    intros site site1 (Hc & Hp & k & Hk & Hel).
    split_and!; [done | done |]. exists k. split; [done|].
    by rewrite decide_True in Hel by (by eapply lookup_lt_Some).
Qed.

Lemma annotated_range_id a b labels (s : Structure) :
  (∀ i, a ≤ i < b → labels !! i = None) → annotated_range a b labels s = s.
Proof.
  intros H. destruct s as [lat l]. unfold annotated_range, with_sites. simpl.
  f_equal. apply list_eq. intros i. rewrite list_lookup_imap.
  destruct (l !! i) as [site|]; [|done]. simpl.
  case_decide as Hi; [|done]. by rewrite (H i Hi).
Qed.

Lemma annotated_range_all labels (s : Structure) :
  annotated_range 0 (length (sites s)) labels s = annotated labels s.
Proof.
  unfold annotated_range, annotated. f_equal. apply list_eq. intros i.
  rewrite !list_lookup_imap. destruct (sites s !! i) as [site|] eqn:Hi; [|done].
  simpl. apply lookup_lt_Some in Hi. by rewrite decide_True by lia.
Qed.

Lemma annotated_nil (s : Structure) : annotated [] s = s.
Proof.
  destruct s as [lat l]. unfold annotated, with_sites. simpl. f_equal.
  apply list_eq. intros i. rewrite list_lookup_imap.
  by destruct (l !! i).
Qed.

Lemma annotated_range_step a b labels label (s : Structure) :
  labels !! a = Some label → a < b →
  annotated_range (S a) b labels
    (with_sites s (alter (λ site, mkSite (element site) (coords site)
                                         (site_dict label ∪ properties site))
                         a (sites s)))
  = annotated_range a b labels s.
Proof.
  intros Hl Hab. unfold annotated_range, with_sites. simpl. f_equal.
  apply list_eq. intros i. rewrite !list_lookup_imap.
  destruct (decide (i = a)) as [->|Hne].
  - rewrite list_lookup_alter_eq. destruct (sites s !! a) as [site|]; [|done].
    simpl. rewrite decide_False by lia. rewrite decide_True by lia.
    by rewrite Hl.
  - rewrite list_lookup_alter_ne by done.
    destruct (sites s !! i) as [site|]; [|done]. simpl.
    destruct (decide (S a ≤ i < b)), (decide (a ≤ i < b)); try done; lia.
Qed.

Lemma mark_site_Some (labels : list string) a label (d : Structure) :
  labels !! a = Some label →
  mark_site (site_dict <$> labels) d a
  = Ok (with_sites d
          (alter (λ site, mkSite label (coords site) (site_dict label ∪ properties site))
                 a (sites d))).
Proof.
  intros Hl. unfold mark_site. rewrite list_lookup_fmap, Hl.
  cbn [fmap option_fmap option_map]. unfold site_dict at 1.
  by rewrite lookup_singleton_eq.
Qed.

Lemma mark_site_None (labels : list string) a (d : Structure) :
  labels !! a = None → mark_site (site_dict <$> labels) d a = Raise IndexError.
Proof. intros Hl. unfold mark_site. by rewrite list_lookup_fmap, Hl. Qed.

Lemma mark_site_shared_Some (r : ref) (labels : list string) a label
    (d : Structure) (h : gmap ref Structure) s1 :
  labels !! a = Some label → h !! r = Some s1 →
  mark_site_shared r (site_dict <$> labels) d a h
  = (mark_site (site_dict <$> labels) d a,
     <[r := with_sites s1
              (alter (λ site, mkSite (element site) (coords site)
                                     (site_dict label ∪ properties site))
                     a (sites s1))]> h).
Proof.
  intros Hl Hr. unfold mark_site_shared. rewrite list_lookup_fmap, Hl.
  cbn [fmap option_fmap option_map].
  unfold mbind, M_bind, update_properties, lift. by rewrite Hr.
Qed.

Lemma mark_site_shared_None (r : ref) (labels : list string) a
    (d : Structure) (h : gmap ref Structure) :
  labels !! a = None →
  mark_site_shared r (site_dict <$> labels) d a h = (Raise IndexError, h).
Proof.
  intros Hl. unfold mark_site_shared. by rewrite list_lookup_fmap, Hl.
Qed.

(** The first loop as it runs: [dict_struct] goes through the turns of
    [mark_site], and the property bags of the structure object are written
    for every site that has a label. *)
Lemma mark_shared_loop (r : ref) (labels : list string) k :
  ∀ a (d : Structure) (h : gmap ref Structure) s1,
    h !! r = Some s1 →
    for_each_M (mark_site_shared r (site_dict <$> labels)) d (seq a k) h
    = (for_each (mark_site (site_dict <$> labels)) d (seq a k),
       <[r := annotated_range a (a + k) labels s1]> h).
Proof.
  induction k as [|k IH]; intros a d h s1 Hr; cbn [seq for_each_M for_each].
  - rewrite annotated_range_id by lia. by rewrite insert_id.
  - unfold mbind at 1. unfold M_bind at 1.
    destruct (labels !! a) as [label|] eqn:Hl.
    + rewrite (mark_site_shared_Some r labels a label d h s1 Hl Hr).
      rewrite (mark_site_Some labels a label d Hl). cbn [mbind result_bind].
      rewrite (IH (S a) _ _ _ (lookup_insert_eq _ _ _)).
      rewrite insert_insert_eq. do 2 f_equal.
      replace (S a + k) with (a + S k) by lia.
      apply annotated_range_step; [done | lia].
    + rewrite (mark_site_shared_None r labels a d h Hl).
      rewrite (mark_site_None labels a d Hl). cbn [mbind result_bind].
      rewrite annotated_range_id, insert_id; [done | done |].
      intros i Hi. apply lookup_ge_None. apply lookup_ge_None in Hl. lia.
Qed.

(** What a call of [get_templates] does: the result comes from the two
    loops on the serialised form; the structure object is normalised and, once
    the labels are known, has them written into its property bags. *)
Lemma get_templates_run (h : gmap ref Structure) r s eqv :
  h !! r = Some s →
  get_templates get_symmetry_dataset r eqv h =
    (ds ← get_symmetry_dataset (normalized s);
     match merged_labels eqv (wyckoffs ds) with
     | [] => Raise UnboundLocalError
     | labels =>
       d ← for_each (mark_site (site_dict <$> labels)) (normalized s)
                    (seq 0 (length (sites (normalized s))));
       for_each (assign_placeholder (sorted_set labels)) (d, [])
                (seq 0 (length (sorted_set labels)))
     end,
     <[r := annotated
              match get_symmetry_dataset (normalized s) with
              | Ok ds => merged_labels eqv (wyckoffs ds)
              | Raise _ => []
              end
              (normalized s)]> h).
Proof.
  intros Hr. unfold get_templates.
  replace (match eqv with
           | Some m => get_sublattice_information get_symmetry_dataset r (Some m)
           | None => get_sublattice_information get_symmetry_dataset r None
           end) with (get_sublattice_information get_symmetry_dataset r eqv)
    by (by destruct eqv).
  unfold mbind at 1. unfold M_bind at 1.
  rewrite (get_sublattice_information_run _ h r s eqv Hr).
  destruct (get_symmetry_dataset (normalized s)) as [ds|e]; simpl;
    [|by rewrite annotated_nil].
  destruct (merged_labels eqv (wyckoffs ds)) as [|l ls]; [by rewrite annotated_nil|].
  unfold mbind at 1. unfold M_bind at 1. unfold deref at 1.
  rewrite lookup_insert_eq.
  unfold mbind at 1. unfold M_bind at 1.
  rewrite (mark_shared_loop r (l :: ls) _ 0 _ _ (normalized s))
    by apply lookup_insert_eq.
  rewrite insert_insert_eq. cbn [Nat.add]. rewrite annotated_range_all.
  destruct (for_each _ (normalized s) _) as [d|e]; cbn [mbind result_bind]; [|done].
  unfold mbind, M_bind, lift.
  destruct (for_each _ (d, []) _) as [[d' tc]|e]; done.
Qed.

End TemplateFacts.

Section TemplateClaims.
Context {Lattice Coords : Type}.
Abbreviation Site := (@Site Coords).
Abbreviation Structure := (@Structure Lattice Coords).
Variable get_symmetry_dataset : Structure → result SymmetryDataset.

Lemma merged_labels_length eqv ws : length (merged_labels eqv ws) = length ws.
Proof. destruct eqv; simpl; [apply length_fmap | done]. Qed.

Lemma annotated_sites labels (s : Structure) j site :
  sites (annotated labels (normalized s)) !! j = Some site →
  ∃ site0, sites s !! j = Some site0 ∧
    element site = "H" ∧ coords site = coords site0 ∧
    properties site = match labels !! j with
                      | Some label => site_dict label ∪ properties site0
                      | None => properties site0
                      end.
Proof.
  unfold annotated, normalized. simpl. rewrite list_lookup_imap, list_lookup_fmap.
  destruct (sites s !! j) as [site0|]; [|done]. simpl.
  intros [= <-]. exists site0. split; [done|].
  by destruct (labels !! j).
Qed.

(** C2, as the code has it: [get_sublattice_information] overwrites the
    species of every site of the caller's own structure object with the dummy
    element, whatever the outcome of the call, and changes nothing else.
    [get_templates] in addition writes, into the property bag of every site
    of that object that has a label, the label under [sublattice_sites]: the
    serialised form it works on shares the property bags.  The object keeps
    its lattice, its positions and its other properties, its species stay
    the dummy element, and no other object is written: the marker and
    placeholder rewriting stays on the serialised form. *)
Theorem C2_normalized_in_place (h : gmap ref Structure) r s eqv :
  h !! r = Some s →
  (get_sublattice_information get_symmetry_dataset r eqv h).2
    = <[r := normalized s]> h ∧
  species (normalized s) = replicate (length (sites s)) "H" ∧
  same_geometry (normalized s) s ∧
  ∃ labels s',
    labels = match get_symmetry_dataset (normalized s) with
             | Ok ds => merged_labels eqv (wyckoffs ds)
             | Raise _ => []
             end ∧
    (get_templates get_symmetry_dataset r eqv h).2 = <[r := s']> h ∧
    lattice s' = lattice s ∧ length (sites s') = length (sites s) ∧
    ∀ j site, sites s' !! j = Some site →
      ∃ site0, sites s !! j = Some site0 ∧
        element site = "H" ∧ coords site = coords site0 ∧
        properties site = match labels !! j with
                          | Some label => site_dict label ∪ properties site0
                          | None => properties site0
                          end.
Proof.
  intros Hr. split_and!.
  - by rewrite (get_sublattice_information_run _ h r s eqv Hr).
  - apply normalized_species.
  - apply normalized_geometry.
  - eexists _, _. split; [reflexivity|].
    rewrite (get_templates_run _ h r s eqv Hr). cbn [snd].
    split_and!; [reflexivity | done | | apply annotated_sites].
    unfold annotated, normalized. simpl. by rewrite length_imap, length_fmap.
Qed.

(** The template under the condition the code needs: no name is the symbol
    of a placeholder handed out to an earlier sublattice. *)
Lemma get_templates_own_placeholder (h : gmap ref Structure) r s eqv ds :
  h !! r = Some s → get_symmetry_dataset (normalized s) = Ok ds →
  sites s ≠ [] → length (wyckoffs ds) = length (sites s) →
  length (sorted_set (merged_labels eqv (wyckoffs ds))) ≤ length periodic_table →
  no_collision (sorted_set (merged_labels eqv (wyckoffs ds))) →
  ∃ ts tc,
    (get_templates get_symmetry_dataset r eqv h).1 = Ok (ts, tc) ∧
    length tc = length (sorted_set (merged_labels eqv (wyckoffs ds))) ∧
    (∀ i sym, tc !! i = Some sym → from_Z (i + 1) = Ok sym) ∧
    lattice ts = lattice s ∧ length (sites ts) = length (sites s) ∧
    own_placeholder (sorted_set (merged_labels eqv (wyckoffs ds)))
                    (merged_labels eqv (wyckoffs ds)) ts tc ∧
    (∀ j site, sites ts !! j = Some site →
       ∃ site0 label, sites s !! j = Some site0 ∧
         merged_labels eqv (wyckoffs ds) !! j = Some label ∧
         coords site = coords site0 ∧
         properties site = site_dict label ∪ properties site0).
Proof.
  intros Hr Hds Hne Hlen Htable Hcoll.
  rewrite (get_templates_run _ h r s eqv Hr), Hds. cbn [fst mbind result_bind].
  pose proof (merged_labels_length eqv (wyckoffs ds)) as Hml.
  assert (Hsn : length (sites (normalized s)) = length (sites s)).
  { unfold normalized. simpl. apply length_fmap. }
  destruct (merged_labels eqv (wyckoffs ds)) as [|l0 ls0].
  { exfalso. simpl in Hml. destruct (sites s); [done | simpl in Hlen; lia]. }
  set (labels := l0 :: ls0) in *.
  rewrite mark_loop by lia. cbn [mbind result_bind].
  set (d1 := with_sites (normalized s) (zip_with marked (sites (normalized s)) labels)).
  destruct (assign_loop (sorted_set labels) d1) as (d & Hrun & Hlat & HF).
  { apply sorted_set_NoDup. }
  { done. }
  { done. }
  { apply Forall_lookup. intros j site1 Hj. subst d1. simpl in Hj.
    apply lookup_zip_with_Some in Hj as (siteN & label & -> & _ & Hl).
    simpl. apply sorted_set_elem_of. by eapply list_elem_of_lookup_2. }
  rewrite Hrun. exists d, (take (length (sorted_set labels)) periodic_table).
  assert (Hd1 : ∀ j site1, sites d1 !! j = Some site1 →
    ∃ site0 label, sites s !! j = Some site0 ∧ labels !! j = Some label ∧
                   site1 = marked (set_element "H" site0) label).
  { intros j site1 Hj. subst d1. simpl in Hj.
    apply lookup_zip_with_Some in Hj as (siteN & label & -> & HN & Hl).
    apply list_lookup_fmap_Some in HN as (site0 & -> & H0).
    by exists site0, label. }
  split_and!.
  - done.
  - by rewrite length_take_le.
  - intros i sym Hi. apply lookup_take_Some in Hi as [Hi _]. by apply from_Z_Ok.
  - by rewrite Hlat.
  - rewrite (Forall2_length _ _ _ HF). subst d1. simpl.
    rewrite length_zip_with, length_fmap. lia.
  - intros j site Hj.
    destruct (Forall2_lookup_l _ _ _ _ _ HF Hj) as (site1 & Hj1 & _ & _ & k & Hk & Hel).
    destruct (Hd1 j site1 Hj1) as (site0 & label & H0 & Hl & ->).
    exists label, k. split_and!; [done | done |].
    rewrite lookup_take_lt; [done|]. by eapply lookup_lt_Some.
  - intros j site Hj.
    destruct (Forall2_lookup_l _ _ _ _ _ HF Hj) as (site1 & Hj1 & Hc & Hp & _).
    destruct (Hd1 j site1 Hj1) as (site0 & label & H0 & Hl & ->).
    exists site0, label. by rewrite Hc, Hp.
Qed.

Lemma wyckoff_alphabet_no_element :
  Forall (λ l, l ∉ periodic_table) wyckoff_alphabet.
Proof. refine (bool_decide_unpack _ _). vm_compute. exact I. Qed.

Lemma wyckoff_names_no_collision (names : list string) :
  Forall (λ l, l ∈ wyckoff_alphabet) names → no_collision names.
Proof.
  intros Hall. unfold no_collision. apply Forall_lookup. intros b [b' name].
  rewrite list_lookup_imap. destruct (names !! b) as [name'|] eqn:Hb; [|done].
  intros [= <- <-]. simpl. intros Hin.
  pose proof (Forall_lookup_1 _ _ _ _ Hall Hb) as Hletter.
  pose proof wyckoff_alphabet_no_element as Hno. rewrite Forall_forall in Hno.
  apply (Hno name' Hletter).
  apply list_elem_of_lookup in Hin as [i [Hi _]%lookup_take_Some].
  by eapply list_elem_of_lookup_2.
Qed.

Lemma wyckoff_names_length (names : list string) :
  NoDup names → Forall (λ l, l ∈ wyckoff_alphabet) names →
  length names ≤ length periodic_table.
Proof.
  intros Hnd Hall. rewrite Forall_forall in Hall.
  transitivity (length wyckoff_alphabet); [|by vm_compute; lia].
  by apply submseteq_length, NoDup_submseteq.
Qed.

(** C8: for a structure with at least one site whose analysis gives one
    label per site, the post-merge labels being Wyckoff letters,
    [get_templates] returns a configuration of as many entries as there are
    sublattice names, entry [i] being the element of atomic number [i+1], and
    a structure with the lattice, positions and site count of the input in
    which every site carries the placeholder of its own sublattice and has
    its label recorded under [sublattice_sites]. *)
Theorem C8_templates (h : gmap ref Structure) r s eqv ds :
  h !! r = Some s → get_symmetry_dataset (normalized s) = Ok ds →
  sites s ≠ [] → length (wyckoffs ds) = length (sites s) →
  Forall (λ l, l ∈ wyckoff_alphabet) (merged_labels eqv (wyckoffs ds)) →
  ∃ ts tc,
    (get_templates get_symmetry_dataset r eqv h).1 = Ok (ts, tc) ∧
    length tc = length (sorted_set (merged_labels eqv (wyckoffs ds))) ∧
    (∀ i sym, tc !! i = Some sym → from_Z (i + 1) = Ok sym) ∧
    lattice ts = lattice s ∧ length (sites ts) = length (sites s) ∧
    own_placeholder (sorted_set (merged_labels eqv (wyckoffs ds)))
                    (merged_labels eqv (wyckoffs ds)) ts tc ∧
    (∀ j site, sites ts !! j = Some site →
       ∃ site0 label, sites s !! j = Some site0 ∧
         merged_labels eqv (wyckoffs ds) !! j = Some label ∧
         coords site = coords site0 ∧
         properties site = site_dict label ∪ properties site0).
Proof.
  intros Hr Hds Hne Hlen Hletters.
  assert (Hnames : Forall (λ l, l ∈ wyckoff_alphabet)
                     (sorted_set (merged_labels eqv (wyckoffs ds)))).
  { rewrite Forall_forall in Hletters |- *. intros l Hl.
    apply Hletters. by apply sorted_set_elem_of. }
  apply (get_templates_own_placeholder h r s eqv ds Hr Hds Hne Hlen).
  - apply wyckoff_names_length; [apply sorted_set_NoDup | done].
  - by apply wyckoff_names_no_collision.
Qed.

End TemplateClaims.

(** ** The source of dilute.py *)



Lemma dilute_py_doc_string :
  tokenize_indentation (take 23 dilute_py) = Ok [(8, 1); (0, 0)] ∧
  dilute_py !! 23 = Some (mkLine Code (ws 0 4)).
Proof. split; reflexivity. Qed.

Lemma dilute_py_import : import_module dilute_py = Raise IndentationError.
Proof. reflexivity. Qed.

(** The same check passes on endmembers.py, indented with tabs throughout. *)
Lemma endmembers_py_import : import_module endmembers_py = Ok ().
Proof. reflexivity. Qed.

Section DiluteClaims.
Context {Lattice Coords : Type}.
Abbreviation Structure := (@Structure Lattice Coords).


End DiluteClaims.

(** ** The endmember generator *)

Lemma product_of_sizes_Permutation {A} (l1 l2 : list (list A)) :
  l1 ≡ₚ l2 → product_of_sizes l1 = product_of_sizes l2.
Proof.
  unfold product_of_sizes.
  induction 1 as [|x l l' _ IH|x y l|l l' l'' _ IH1 _ IH2]; simpl; lia.
Qed.

Lemma zip_keys_NoDup {V} (tc : list string) (sc : list V) :
  NoDup tc → NoDup (zip tc sc).*1.
Proof.
  intros Hnd. rewrite <- (zip_with_take_l pair tc sc).
  rewrite fst_zip by (rewrite length_take; lia).
  eapply sublist_NoDup; [exact Hnd | apply sublist_take].
Qed.

Lemma element_dict_lookup {V} (tc : list string) (sc : list V) i p v :
  NoDup tc → tc !! i = Some p → sc !! i = Some v →
  dict_of_pairs (zip tc sc) !! p = Some v.
Proof.
  intros Hnd Hp Hv. apply dict_of_pairs_lookup; [by apply zip_keys_NoDup|].
  apply list_elem_of_lookup. exists i.
  by rewrite lookup_zip_with, Hp, Hv.
Qed.

Lemma element_dict_dom {V} (tc : list string) (sc : list V) :
  length tc ≤ length sc →
  dom (dict_of_pairs (zip tc sc)) = list_to_set tc.
Proof. intros Hlen. by rewrite dict_of_pairs_dom, fst_zip. Qed.

Section EndmemberFacts.
Context {Lattice Coords : Type}.
Abbreviation Site := (@Site Coords).
Abbreviation Structure := (@Structure Lattice Coords).
Variable substitute_configuration :
  Structure → list (list string) → list (list string) → result Structure.

(** The keys of the dictionary are found in it, so the axes are always
    built; what remains is one engine call per product tuple. *)
Lemma get_endmembers_with_templates_run (ts : Structure) tc sc :
  get_endmembers_with_templates substitute_configuration ts tc sc
  = mapM (λ i, substitute_configuration ts [tc] [i])
         (product ((λ k, default [] (dict_of_pairs (zip tc sc) !! k))
                     <$> sorted (elements (dom (dict_of_pairs (zip tc sc)))))).
Proof.
  unfold get_endmembers_with_templates.
  set (m := dict_of_pairs (zip tc sc)).
  rewrite (mapM_result_Ok _ (λ k, default [] (m !! k))); [done|].
  intros k Hk. rewrite sorted_Permutation, elem_of_elements in Hk.
  apply elem_of_dom in Hk as [v ->]. done.
Qed.

Lemma axes_Forall2 (tc : list string) (sc : list (list string)) :
  NoDup tc → length sc = length tc →
  Forall2 (λ p ax, ∃ i, tc !! i = Some p ∧ sc !! i = Some ax)
          (sorted_set tc)
          ((λ k, default [] (dict_of_pairs (zip tc sc) !! k)) <$> sorted_set tc).
Proof.
  intros Hnd Hlen. apply Forall2_fmap_r, Forall_Forall2_diag, Forall_forall.
  intros p Hp. apply (proj1 (sorted_set_elem_of _ _)) in Hp.
  apply list_elem_of_lookup in Hp as [i Hi].
  destruct (lookup_lt_is_Some_2 sc i) as [ax Hax].
  { rewrite Hlen. exact (lookup_lt_Some _ _ _ Hi). }
  exists i. split; [done|].
  by rewrite (element_dict_lookup tc sc i p ax).
Qed.

Lemma axes_Permutation (tc : list string) (sc : list (list string)) :
  NoDup tc → length sc = length tc →
  (λ k, default [] (dict_of_pairs (zip tc sc) !! k)) <$> sorted_set tc ≡ₚ sc.
Proof.
  intros Hnd Hlen. rewrite (sorted_set_NoDup_Permutation tc Hnd).
  replace ((λ k, default [] (dict_of_pairs (zip tc sc) !! k)) <$> tc) with sc; [done|].
  apply list_eq. intros i. rewrite list_lookup_fmap.
  destruct (tc !! i) as [p|] eqn:Hp; simpl.
  - destruct (lookup_lt_is_Some_2 sc i) as [ax Hax].
    { rewrite Hlen. exact (lookup_lt_Some _ _ _ Hp). }
    by rewrite Hax, (element_dict_lookup tc sc i p ax).
  - apply lookup_ge_None. rewrite Hlen. by apply lookup_ge_None.
Qed.

End EndmemberFacts.

Lemma mapM_result_total {A B} (f : A → result B) l :
  (∀ x, x ∈ l → is_Ok (f x)) →
  ∃ k, mapM f l = Ok k ∧ Forall2 (λ x y, f x = Ok y) l k.
Proof.
  induction l as [|x l IH]; intros H.
  - exists []. split; [done | constructor].
  - destruct (H x) as [y Hy]; [left|].
    destruct IH as (k & Hk & HF); [intros z Hz; apply H; by right|].
    exists (y :: k). split; [|by constructor].
    cbn [mapM]. rewrite Hy. cbn [mbind result_bind].
    change (mapM f l ≫= (λ k0, mret (y :: k0)) = Ok (y :: k)).
    by rewrite Hk.
Qed.

Lemma Forall2_join {A B C} (P : A → B → Prop) (Q : C → B → Prop) l k m :
  Forall2 P l k → Forall2 Q m k → Forall2 (λ x z, ∃ y, P x y ∧ Q z y) l m.
Proof.
  intros H. revert m. induction H as [|x y l k Hxy _ IH]; intros m Hm.
  - apply Forall2_nil_inv_r in Hm as ->. constructor.
  - apply Forall2_cons_inv_r in Hm as (z & m' & Hz & Hm' & ->).
    constructor; [by exists y | by apply IH].
Qed.

Lemma sorted_set_sorted l : NoDup l → sorted_set l = sorted l.
Proof.
  intros Hnd. apply sorted_unique; [apply sorted_Sorted|].
  rewrite sorted_Permutation. symmetry.
  apply NoDup_Permutation; [apply NoDup_elements | done |].
  intros x. by rewrite elem_of_elements, elem_of_list_to_set.
Qed.

Section EndmemberClaims.
Context {Lattice Coords : Type}.
Abbreviation Site := (@Site Coords).
Abbreviation Structure := (@Structure Lattice Coords).
Variable substitute_configuration :
  Structure → list (list string) → list (list string) → result Structure.

(** C4: with pairwise distinct placeholders and one candidate list per
    placeholder, as long as the substitution engine accepts every tuple, the
    call returns [n1 * ... * nk] structures: the engine's answers to the
    tuples of the product of the candidate lists, the axes being the
    candidate lists of the placeholders in sorted order and the enumeration
    that of [product] (see [product_lookup]). *)
Theorem C4_endmember_count (ts : Structure) tc sc :
  NoDup tc → length sc = length tc →
  (∀ t, Forall2 (λ x p, ∃ ax, x ∈ ax ∧ ∃ i, tc !! i = Some p ∧ sc !! i = Some ax)
                t (sorted tc) →
        is_Ok (substitute_configuration ts [tc] [t])) →
  ∃ axes out,
    Forall2 (λ p ax, ∃ i, tc !! i = Some p ∧ sc !! i = Some ax) (sorted tc) axes ∧
    get_endmembers_with_templates substitute_configuration ts tc sc = Ok out ∧
    length out = product_of_sizes sc ∧
    Forall2 (λ t o, substitute_configuration ts [tc] [t] = Ok o) (product axes) out.
Proof.
  intros Hnd Hlen Hengine.
  rewrite get_endmembers_with_templates_run.
  rewrite element_dict_dom by lia. fold (sorted_set tc).
  pose proof (axes_Forall2 tc sc Hnd Hlen) as Haxes.
  pose proof (axes_Permutation tc sc Hnd Hlen) as Hperm.
  set (axes := (λ k, default [] (dict_of_pairs (zip tc sc) !! k)) <$> sorted_set tc) in *.
  rewrite (sorted_set_sorted tc Hnd) in Haxes.
  destruct (mapM_result_total (λ i, substitute_configuration ts [tc] [i]) (product axes))
    as (out & Hout & HF).
  { intros t Ht. apply Hengine. apply product_elem_of in Ht.
    eapply Forall2_impl; [exact (Forall2_join _ _ _ _ _ Ht Haxes)|].
    intros x p (ax & Hx & Hp). by exists ax. }
  exists axes, out. split_and!; [done | done | | done].
  rewrite <- (Forall2_length _ _ _ HF), product_length.
  by apply product_of_sizes_Permutation.
Qed.

(** C3, as the code has it: nothing is validated.  With pairwise distinct
    placeholders, an empty candidate list paired with a placeholder makes the
    call return the empty list; candidate lists beyond the length of the
    template configuration are ignored; and an exception can only be one
    raised by the substitution engine on a tuple of the product, made of one
    candidate per sorted key. *)
Theorem C3_no_validation (ts : Structure) tc sc :
  (NoDup tc → (∃ i p, tc !! i = Some p ∧ sc !! i = Some []) →
     get_endmembers_with_templates substitute_configuration ts tc sc = Ok []) ∧
  get_endmembers_with_templates substitute_configuration ts tc sc
  = get_endmembers_with_templates substitute_configuration ts tc
      (take (length tc) sc) ∧
  (∀ e, get_endmembers_with_templates substitute_configuration ts tc sc = Raise e →
        ∃ t,
          Forall2 (λ x k, ∃ ax, dict_of_pairs (zip tc sc) !! k = Some ax ∧ x ∈ ax)
                  t (sorted (elements (dom (dict_of_pairs (zip tc sc))))) ∧
          substitute_configuration ts [tc] [t] = Raise e).
Proof.
  split_and!.
  - intros Hnd (i & p & Hp & Hsc).
    rewrite get_endmembers_with_templates_run.
    pose proof (element_dict_lookup tc sc i p [] Hnd Hp Hsc) as Hm.
    rewrite product_nil_in; [done|].
    apply list_elem_of_fmap. exists p. split; [by rewrite Hm|].
    rewrite sorted_Permutation, elem_of_elements. apply elem_of_dom. by eexists.
  - unfold get_endmembers_with_templates.
    by rewrite (zip_with_take_r pair tc sc).
  - intros e. rewrite get_endmembers_with_templates_run.
    intros (t & Hin & Ht)%mapM_result_Raise. exists t. split; [|done].
    apply product_elem_of in Hin. rewrite Forall2_fmap_r in Hin.
    eapply Forall2_impl; [exact Hin|]. intros x k Hx. simpl in Hx.
    destruct (dict_of_pairs (zip tc sc) !! k) as [ax|]; [by exists ax|].
    by apply elem_of_nil in Hx.
Qed.

End EndmemberClaims.

(** ** The properties at concrete structures *)

Module Examples.
Import Fixtures.

Lemma C9_witness :
  (get_sublattice_information fake_symmetry 1%positive None (store rocksalt)).1
  = (get_sublattice_information fake_symmetry 1%positive None (store sylvite)).1.
Proof.
  apply (C9_chemistry_insensitive fake_symmetry (store rocksalt) (store sylvite)
           1%positive 1%positive rocksalt sylvite None).
  - reflexivity.
  - reflexivity.
  - vm_compute. auto.
Defined.

Lemma C10_witness :
  (get_sublattice_information fake_symmetry 1%positive None (store no_sites)).1
  = Raise UnboundLocalError ∧
  (get_sublattice_information fake_symmetry 1%positive None (store rocksalt)).1
  = Ok (site_dict <$> ["a"; "b"], sorted_set ["a"; "b"]).
Proof.
  split.
  - apply (C10_requires_a_site fake_symmetry (store no_sites) 1%positive no_sites
             None (mkDataset [] [])); reflexivity.
  - apply (C10_requires_a_site fake_symmetry (store rocksalt) 1%positive rocksalt
             None (mkDataset ["a"; "b"] [0; 1]%Z)); [reflexivity | reflexivity |].
    simpl. discriminate.
Defined.

Lemma C5_witness :
  ∃ names,
    (get_sublattice_information fake_symmetry 1%positive
       (Some {[ "b" := "f" ]}) (store three_orbits)).1
    = Ok (site_dict <$> ["a"; "f"; "f"; "f"], names) ∧ names = ["a"; "f"].
Proof.
  destruct (C5_equivalence_map fake_symmetry (store three_orbits) 1%positive
              three_orbits {[ "b" := "f" ]}
              (mkDataset ["a"; "b"; "f"; "b"] [0; 1; 2; 1]%Z))
    as (names & Hrun & _ & _ & Hnames).
  - reflexivity.
  - reflexivity.
  - simpl. discriminate.
  - exists names. split; [exact Hrun|]. apply Hnames; [reflexivity|].
    intros w. simpl. rewrite !elem_of_cons. tauto.
Defined.

(** C2 fails as stated: after the call the caller's object is no longer the
    structure that was passed in. *)
Lemma C2_counterexample :
  (get_sublattice_information fake_symmetry 1%positive None (store rocksalt)).2
    !! 1%positive ≠ Some rocksalt ∧
  (get_templates fake_symmetry 1%positive None (store rocksalt)).2
    !! 1%positive ≠ Some rocksalt.
Proof. split; vm_compute; discriminate. Qed.

Lemma C2_witness :
  (get_sublattice_information fake_symmetry 1%positive None (store rocksalt)).2
    = <[1%positive := normalized rocksalt]> (store rocksalt) ∧
  ∃ s',
    (get_templates fake_symmetry 1%positive None (store rocksalt)).2
      = <[1%positive := s']> (store rocksalt) ∧
    ∀ site, sites s' !! 1 = Some site →
      element site = "H" ∧ properties site !! "sublattice_sites" = Some "b".
Proof.
  destruct (C2_normalized_in_place fake_symmetry (store rocksalt) 1%positive
              rocksalt None eq_refl)
    as (Hinfo & _ & _ & labels & s' & Hlabels & Htemplates & _ & _ & Hsites).
  split; [exact Hinfo|]. exists s'. split; [exact Htemplates|].
  intros site Hsite. destruct (Hsites 1 site Hsite) as (site0 & H0 & Hel & _ & Hp).
  split; [exact Hel|]. rewrite Hp. subst labels. simpl.
  apply lookup_union_Some_l. apply lookup_singleton_eq.
Defined.

(** Outside the Wyckoff letters: with a map a ↦ B, b ↦ H the names are B and
    H; the sites of sublattice B receive "H" in the first turn and are then
    taken for sublattice H in the second, so they end with "He", the
    placeholder of the other sublattice. *)
Lemma marker_collision_outside_alphabet :
  match (get_templates fake_symmetry 1%positive
           (Some {[ "a" := "B"; "b" := "H" ]}) (store rocksalt)).1 with
  | Ok (ts, tc) =>
      tc = ["H"; "He"] ∧ species ts = ["He"; "He"] ∧
      sorted_set (merged_labels (Some {[ "a" := "B"; "b" := "H" ]}) ["a"; "b"])
        = ["B"; "H"] ∧
      ¬ own_placeholder ["B"; "H"] ["B"; "H"] ts tc
  | Raise _ => False
  end.
Proof.
  vm_compute. split_and!; [reflexivity | reflexivity | reflexivity |].
  intros H. destruct (H 0 _ eq_refl) as (label & k & Hl & Hk & Ht).
  injection Hl as <-. destruct k as [|[|k]]; simpl in Hk, Ht; congruence.
Qed.

Lemma C8_witness :
  ∃ ts tc,
    (get_templates fake_symmetry 1%positive None (store rocksalt)).1 = Ok (ts, tc) ∧
    length tc = 2 ∧ species ts = ["H"; "He"] ∧
    own_placeholder (sorted_set ["a"; "b"]) ["a"; "b"] ts tc.
Proof.
  destruct (C8_templates fake_symmetry (store rocksalt) 1%positive rocksalt None
              (mkDataset ["a"; "b"] [0; 1]%Z))
    as (ts & tc & Hrun & Hlen & _ & _ & _ & Hown & _).
  - reflexivity.
  - reflexivity.
  - simpl. discriminate.
  - reflexivity.
  - refine (bool_decide_unpack _ _). vm_compute. exact I.
  - exists ts, tc. split_and!; [exact Hrun | exact Hlen | | exact Hown].
    assert (Hcomp : (get_templates fake_symmetry 1%positive None (store rocksalt)).1
                    = Ok (ts, tc)) by exact Hrun.
    vm_compute in Hcomp. injection Hcomp as <- <-. reflexivity.
Defined.

(** C7 at the scenario of three equivalent-atom groups with "Na" on every
    representative site and the pool Na, K, Mg: the call raises
    [IndentationError] with the import of the module and returns nothing,
    whatever the statements of the function would compute, so not the six
    structures counted. *)
Theorem C7_scenario_raises :
  ∀ body : list (@Structure Lattice Coords) → list string →
           result (list (@Structure Lattice Coords)),
    dilute_substitution body [three_groups] ["Na"; "K"; "Mg"]
    = Raise IndentationError ∧
    ¬ is_Ok (dilute_substitution body [three_groups] ["Na"; "K"; "Mg"]).
Proof.
  intros body. unfold dilute_substitution. rewrite dilute_py_import.
  split; [reflexivity|]. by intros [out Hout].
Qed.

(** The rock-salt scenario: candidates Na, K on the first sublattice and Cl
    on the second give the two endmembers Na-Cl and K-Cl. *)
Lemma C4_witness :
  ∃ out,
    get_endmembers_with_templates substitute_configuration
      (structure [site "H" 0 0 0; site "He" 1 2 2]) ["H"; "He"]
      [["Na"; "K"]; ["Cl"]] = Ok out ∧
    length out = 2.
Proof.
  destruct (C4_endmember_count substitute_configuration
              (structure [site "H" 0 0 0; site "He" 1 2 2]) ["H"; "He"]
              [["Na"; "K"]; ["Cl"]])
    as (axes & out & _ & Hrun & Hlen & _).
  - refine (bool_decide_unpack _ _). vm_compute. exact I.
  - reflexivity.
  - intros t Ht. apply Forall2_length in Ht.
    destruct t as [|x [|y [|z t]]]; try (vm_compute in Ht; discriminate).
    eexists. vm_compute. reflexivity.
  - exists out. split; [exact Hrun | exact Hlen].
Defined.

(** C3 fails as stated: with an empty candidate list the call returns the
    empty list, and with three candidate lists for two sublattices it returns
    an endmember, in both cases without raising. *)
Lemma C3_counterexample :
  match (get_templates fake_symmetry 1%positive None (store rocksalt)).1 with
  | Ok (ts, tc) =>
      tc = ["H"; "He"] ∧
      get_endmembers_with_templates substitute_configuration ts tc [["Na"]; []]
        = Ok [] ∧
      species_of (get_endmembers_with_templates substitute_configuration ts tc
                          [["Na"]; ["Cl"]; ["K"]])
        = Ok [["Na"; "Cl"]]
  | Raise _ => False
  end.
Proof. vm_compute. split_and!; reflexivity. Qed.

Lemma C3_witness :
  get_endmembers_with_templates substitute_configuration
    (structure [site "H" 0 0 0; site "He" 1 2 2]) ["H"; "He"] [["Na"]; []] = Ok [].
Proof.
  apply (proj1 (C3_no_validation substitute_configuration
           (structure [site "H" 0 0 0; site "He" 1 2 2]) ["H"; "He"] [["Na"]; []])).
  - refine (bool_decide_unpack _ _). vm_compute. exact I.
  - exists 1, "He". split; reflexivity.
Defined.

(** C1 at a template of four sublattices: the placeholders are H, He, Li, Be
    and sort as Be, H, He, Li, so the tuple handed to the engine lists the
    candidate of the fourth sublattice first; the sites of the first
    sublattice, which carry "H", receive "Ca", a candidate of the fourth, and
    not "Na", the only candidate of their own. *)
Theorem C1_misaligned_from_four_sublattices :
  match (get_templates fake_symmetry 1%positive None (store four_orbits)).1 with
  | Ok (ts, tc) =>
      tc = ["H"; "He"; "Li"; "Be"] ∧
      species ts = ["H"; "He"; "Li"; "Be"; "H"] ∧
      sorted tc = ["Be"; "H"; "He"; "Li"] ∧
      species_of (get_endmembers_with_templates substitute_configuration ts tc
                          [["Na"]; ["K"]; ["Mg"]; ["Ca"]])
        = Ok [["Ca"; "Na"; "K"; "Mg"; "Ca"]]
  | Raise _ => False
  end.
Proof. vm_compute. split_and!; reflexivity. Qed.

End Examples.

(** * Further properties *)

(** ** The sublattice modeler, continued *)

Section SublatticeMore.
Context {Lattice Coords : Type}.
Abbreviation Structure := (@Structure Lattice Coords).
Variable get_symmetry_dataset : Structure → result SymmetryDataset.

Lemma normalized_idemp (s : Structure) : normalized (normalized s) = normalized s.
Proof.
  unfold normalized, with_sites. simpl. f_equal.
  rewrite <- list_fmap_compose. by apply list_fmap_ext.
Qed.

Lemma merged_labels_irrelevant (m : gmap string string) ws :
  (∀ w, w ∈ ws → m !! w = None) → merged_labels (Some m) ws = ws.
Proof.
  intros H. simpl. rewrite <- (list_fmap_id ws) at 2.
  apply list_fmap_ext. intros i w Hw.
  rewrite (H w); [done|]. by eapply list_elem_of_lookup_2.
Qed.

(** X1: when [get_sublattice_information] returns, the names are non-empty
    and pairwise distinct, every entry of [site_list] is a one-key dictionary
    whose label is among the names, and every name is the label of some
    entry. *)
Theorem X1_site_list_matches_names (h : gmap ref Structure) r s eqv site_list names :
  h !! r = Some s →
  (get_sublattice_information get_symmetry_dataset r eqv h).1 = Ok (site_list, names) →
  names ≠ [] ∧ NoDup names ∧
  (∀ d, d ∈ site_list →
     ∃ label, d = {[ "sublattice_sites" := label ]} ∧ label ∈ names) ∧
  (∀ label, label ∈ names →
     ({[ "sublattice_sites" := label ]} : gmap string string) ∈ site_list).
Proof.
  intros Hr.
  destruct (get_symmetry_dataset (normalized s)) as [ds|e] eqn:Hds.
  2: { rewrite (get_sublattice_information_run _ h r s eqv Hr), Hds. done. }
  rewrite (get_sublattice_information_labels _ h r s eqv ds Hr Hds).
  destruct (wyckoffs ds) as [|w ws] eqn:Hw; [done|]. rewrite <- Hw.
  cbv beta iota. intros [= <- <-]. split_and!.
  - intros Hnil.
    assert (Hin : default w (eqv ≫= (.!! w)) ∈ merged_labels eqv (wyckoffs ds)).
    { rewrite Hw. destruct eqv; simpl; left. }
    apply sorted_set_elem_of in Hin. rewrite Hnil in Hin.
    by apply elem_of_nil in Hin.
  - apply sorted_set_NoDup.
  - intros d (label & -> & Hlabel)%list_elem_of_fmap.
    exists label. split; [reflexivity|]. by apply sorted_set_elem_of.
  - intros label Hlabel. apply (proj1 (sorted_set_elem_of _ _)) in Hlabel.
    apply list_elem_of_fmap. exists label. split; [reflexivity | done].
Qed.

(** X2: an exception of the symmetry analysis comes out of
    [get_sublattice_information] and of [get_templates] unchanged. *)
Theorem X2_symmetry_failure_propagates (h : gmap ref Structure) r s eqv e :
  h !! r = Some s → get_symmetry_dataset (normalized s) = Raise e →
  (get_sublattice_information get_symmetry_dataset r eqv h).1 = Raise e ∧
  (get_templates get_symmetry_dataset r eqv h).1 = Raise e.
Proof.
  intros Hr He.
  rewrite (get_sublattice_information_run _ h r s eqv Hr).
  rewrite (get_templates_run _ h r s eqv Hr). by rewrite He.
Qed.

(** X3: a second call on the same object returns what the first call
    returned and leaves the store as the first call left it. *)
Theorem X3_second_call_same (h : gmap ref Structure) r s eqv :
  h !! r = Some s →
  get_sublattice_information get_symmetry_dataset r eqv
    (get_sublattice_information get_symmetry_dataset r eqv h).2
  = get_sublattice_information get_symmetry_dataset r eqv h.
Proof.
  intros Hr. rewrite (get_sublattice_information_run _ h r s eqv Hr). simpl.
  rewrite (get_sublattice_information_run _ _ r (normalized s) eqv)
    by apply lookup_insert_eq.
  by rewrite normalized_idemp, insert_insert_eq.
Qed.

(** X4: an equivalence map none of whose keys is a label of the structure, the
    empty map in particular, gives what no map gives, for both functions. *)
Theorem X4_irrelevant_map (h : gmap ref Structure) r s (m : gmap string string) :
  h !! r = Some s →
  (∀ ds w, get_symmetry_dataset (normalized s) = Ok ds → w ∈ wyckoffs ds →
           m !! w = None) →
  get_sublattice_information get_symmetry_dataset r (Some m) h
  = get_sublattice_information get_symmetry_dataset r None h ∧
  get_templates get_symmetry_dataset r (Some m) h
  = get_templates get_symmetry_dataset r None h.
Proof.
  intros Hr Hm.
  rewrite !(get_sublattice_information_run _ h r s _ Hr).
  rewrite !(get_templates_run _ h r s _ Hr).
  destruct (get_symmetry_dataset (normalized s)) as [ds|e] eqn:Hds; [|done].
  cbn [mbind result_bind].
  rewrite (merged_labels_irrelevant m (wyckoffs ds)) by (intros w; by apply Hm).
  done.
Qed.

(** X5: merging never adds a sublattice: with a map there are at most as many
    names as without, and as many per-site entries. *)
Theorem X5_merging_never_adds (h : gmap ref Structure) r s m sl names sl0 names0 :
  h !! r = Some s →
  (get_sublattice_information get_symmetry_dataset r (Some m) h).1 = Ok (sl, names) →
  (get_sublattice_information get_symmetry_dataset r None h).1 = Ok (sl0, names0) →
  length names ≤ length names0 ∧ length sl = length sl0.
Proof.
  intros Hr.
  destruct (get_symmetry_dataset (normalized s)) as [ds|e] eqn:Hds.
  2: { rewrite (get_sublattice_information_run _ h r s _ Hr), Hds. done. }
  rewrite !(get_sublattice_information_labels _ h r s _ ds Hr Hds).
  destruct (wyckoffs ds) as [|w ws] eqn:Hw; [done|]. rewrite <- Hw.
  cbv beta iota. intros [= <- <-] [= <- <-].
  split.
  2: { rewrite (length_fmap site_dict), (length_fmap site_dict).
       by rewrite length_fmap. }
  cbn [merged_labels].
  rewrite <- (length_fmap (λ i, default i (m !! i)) (sorted_set (wyckoffs ds))).
  apply submseteq_length, NoDup_submseteq; [apply sorted_set_NoDup|].
  intros x Hx. apply (proj1 (sorted_set_elem_of _ _)) in Hx.
  apply list_elem_of_fmap in Hx as (w0 & -> & Hw0).
  apply list_elem_of_fmap. exists w0. split; [done|]. by apply sorted_set_elem_of.
Qed.

(** X6: the template depends on the geometry only: structures that differ at
    most in their species get the same template structure and configuration,
    or the same exception, from [get_templates]. *)
Theorem X6_template_from_geometry (h1 h2 : gmap ref Structure) r1 r2 s1 s2 eqv :
  h1 !! r1 = Some s1 → h2 !! r2 = Some s2 → same_geometry s1 s2 →
  (get_templates get_symmetry_dataset r1 eqv h1).1
  = (get_templates get_symmetry_dataset r2 eqv h2).1.
Proof.
  intros H1 H2 Hg.
  rewrite (get_templates_run _ h1 r1 s1 eqv H1).
  rewrite (get_templates_run _ h2 r2 s2 eqv H2).
  cbn [fst]. by rewrite (normalized_same_geometry s1 s2 Hg).
Qed.

End SublatticeMore.

(** ** Templates, continued *)

Lemma for_each_seq_raise {St} (body : St → nat → result St) e n :
  ∀ a b s, a ≤ b < a + n →
    (∀ i s, a ≤ i < b → ∃ s', body s i = Ok s') →
    (∀ s, body s b = Raise e) →
    for_each body s (seq a n) = Raise e.
Proof.
  induction n as [|n IH]; intros a b s Hab Hok Hraise; [lia|].
  cbn [seq for_each]. destruct (decide (a = b)) as [->|Hne].
  - by rewrite Hraise.
  - destruct (Hok a s) as [s' ->]; [lia|]. cbn [mbind result_bind].
    apply (IH (S a) b); [lia | | done]. intros i s0 Hi. apply Hok. lia.
Qed.

Lemma from_Z_beyond_table : from_Z (length periodic_table + 1) = Raise ValueError.
Proof.
  replace (length periodic_table + 1) with (S (length periodic_table)) by lia.
  unfold from_Z. by rewrite (lookup_ge_None_2 periodic_table (length periodic_table)).
Qed.

Section TemplateMore.
Context {Lattice Coords : Type}.
Abbreviation Site := (@Site Coords).
Abbreviation Structure := (@Structure Lattice Coords).
Variable get_symmetry_dataset : Structure → result SymmetryDataset.

Lemma mark_loop_short (labels : list string) (d0 : Structure) :
  length labels < length (sites d0) →
  for_each (mark_site (site_dict <$> labels)) d0 (seq 0 (length (sites d0)))
  = Raise IndexError.
Proof.
  intros Hlen.
  apply (for_each_seq_raise _ _ _ 0 (length labels)); [lia | |].
  - intros i d Hi.
    destruct (lookup_lt_is_Some_2 labels i) as [label Hlabel]; [lia|].
    unfold mark_site. rewrite list_lookup_fmap, Hlabel. simpl.
    unfold site_dict at 1. rewrite lookup_singleton_eq. by eexists.
  - intros d. unfold mark_site.
    by rewrite list_lookup_fmap, (lookup_ge_None_2 labels (length labels)).
Qed.

Lemma assign_loop_beyond_table (names : list string) (d1 : Structure) :
  length periodic_table < length names →
  for_each (assign_placeholder names) (d1, []) (seq 0 (length names))
  = Raise ValueError.
Proof.
  intros Hlen.
  apply (for_each_seq_raise _ _ _ 0 (length periodic_table)); [lia | |].
  - intros i st Hi.
    destruct (lookup_lt_is_Some_2 names i) as [name Hname]; [lia|].
    destruct (lookup_lt_is_Some_2 periodic_table i) as [P HP]; [lia|].
    unfold assign_placeholder. rewrite Hname, (proj2 (from_Z_Ok i P) HP).
    by eexists.
  - intros st.
    destruct (lookup_lt_is_Some_2 names (length periodic_table)) as [name Hname];
      [lia|].
    unfold assign_placeholder. by rewrite Hname, from_Z_beyond_table.
Qed.

(** The second loop whatever the names are: every site ends with one of the
    placeholders handed out. *)
Lemma assign_loop_shape (names : list string) (d1 : Structure) :
  NoDup names → length names ≤ length periodic_table →
  Forall (λ site, element site ∈ names) (sites d1) →
  ∃ d, for_each (assign_placeholder names) (d1, []) (seq 0 (length names))
       = Ok (d, take (length names) periodic_table) ∧
       lattice d = lattice d1 ∧
       Forall2 (λ site site1 : Site,
                  coords site = coords site1 ∧ properties site = properties site1 ∧
                  element site ∈ take (length names) periodic_table)
               (sites d) (sites d1).
Proof.
  intros Hnd Hlen Hin.
  pose (R := λ (i : nat) (site site1 : Site),
    coords site = coords site1 ∧ properties site = properties site1 ∧
    (element site ∈ take i periodic_table ∨
     (element site = element site1 ∧
      ∃ k, i ≤ k ∧ names !! k = Some (element site1)))).
  pose (Inv := λ (i : nat) (st : Structure * list string),
    st.2 = take i periodic_table ∧ lattice st.1 = lattice d1 ∧
    Forall2 (R i) (sites st.1) (sites d1)).
  destruct (for_each_seq_inv (assign_placeholder names) Inv (length names) 0 (d1, []))
    as ([d cfg] & Hrun & Hcfg & Hlat & HR).
  - split_and!; [done | done |]. simpl.
    apply Forall2_same_length_lookup. split; [done|].
    intros j site site1 Hj Hj1. rewrite Hj in Hj1. injection Hj1 as <-.
    split_and!; [done | done |]. right. split; [done|].
    rewrite Forall_forall in Hin.
    destruct (proj1 (list_elem_of_lookup names (element site))) as [k Hk].
    { apply Hin. by eapply list_elem_of_lookup_2. }
    exists k. split; [lia | done].
  - intros i [d cfg] [_ Hi] (Hcfg & Hlat & HR). simpl in Hi, Hcfg, Hlat, HR.
    destruct (lookup_lt_is_Some_2 names i) as [name Hname]; [lia|].
    destruct (lookup_lt_is_Some_2 periodic_table i) as [P HP]; [lia|].
    unfold assign_placeholder. rewrite Hname.
    rewrite (proj2 (from_Z_Ok i P) HP). simpl.
    eexists. split; [done|]. unfold Inv. cbn [fst snd with_sites sites lattice].
    split_and!.
    + rewrite Hcfg. by rewrite (take_S_r _ _ _ HP).
    + done.
    + apply Forall2_fmap_l. eapply Forall2_impl; [exact HR|].
      intros site site1 (Hc & Hp & Hel). unfold compose, R.
      rewrite (take_S_r _ _ _ HP).
      destruct (decide (element site = name)) as [Heq|Hne].
      { split_and!; [done | done |]. left. simpl.
        apply elem_of_app. right. by apply list_elem_of_singleton. }
      split_and!; [done | done |].
      destruct Hel as [Hel|(Hel & k & Hk & Hnk)].
      * left. apply elem_of_app. by left.
      * right. split; [done|]. exists k. split; [|done].
        destruct (decide (k = i)) as [->|]; [|lia].
        exfalso. apply Hne. rewrite Hel. congruence.
  - simpl in Hcfg, Hlat, HR, Hrun. subst cfg. exists d. split; [done|].
    split; [done|]. eapply Forall2_impl; [exact HR|].
    intros site site1 (Hc & Hp & Hel). split_and!; [done | done |].
    destruct Hel as [Hel|(_ & k & Hk & Hnk)]; [done|].
    apply lookup_lt_Some in Hnk. lia.
Qed.

(** X7: when the analysis returns fewer labels than the structure has sites,
    [get_templates] raises [IndexError]. *)
Theorem X7_fewer_labels_than_sites (h : gmap ref Structure) r s eqv ds :
  h !! r = Some s → get_symmetry_dataset (normalized s) = Ok ds →
  wyckoffs ds ≠ [] → length (wyckoffs ds) < length (sites s) →
  (get_templates get_symmetry_dataset r eqv h).1 = Raise IndexError.
Proof.
  intros Hr Hds Hne Hlen.
  rewrite (get_templates_run _ h r s eqv Hr), Hds. cbn [fst mbind result_bind].
  pose proof (merged_labels_length eqv (wyckoffs ds)) as Hml.
  destruct (merged_labels eqv (wyckoffs ds)) as [|l0 ls0].
  { destruct (wyckoffs ds); [done | simpl in Hml; lia]. }
  rewrite mark_loop_short; [done|].
  unfold normalized. cbn [sites with_sites]. rewrite length_fmap. lia.
Qed.

(** X8: when every site has its label and there are more names than elements
    in the periodic table, [get_templates] raises [ValueError]. *)
Theorem X8_more_names_than_elements (h : gmap ref Structure) r s eqv ds :
  h !! r = Some s → get_symmetry_dataset (normalized s) = Ok ds →
  length (sites s) ≤ length (wyckoffs ds) →
  length periodic_table < length (sorted_set (merged_labels eqv (wyckoffs ds))) →
  (get_templates get_symmetry_dataset r eqv h).1 = Raise ValueError.
Proof.
  intros Hr Hds Hlen Hmany.
  rewrite (get_templates_run _ h r s eqv Hr), Hds. cbn [fst mbind result_bind].
  pose proof (merged_labels_length eqv (wyckoffs ds)) as Hml.
  destruct (merged_labels eqv (wyckoffs ds)) as [|l0 ls0].
  { exfalso. vm_compute in Hmany. lia. }
  rewrite mark_loop.
  - cbn [mbind result_bind]. by apply assign_loop_beyond_table.
  - unfold normalized. cbn [sites with_sites]. rewrite length_fmap. lia.
Qed.

(** X9: when the analysis returns at least one label, a label for every site,
    and no more names than the periodic table has elements, [get_templates]
    returns; whatever the labels are, the configuration is the first [N]
    element symbols, pairwise distinct, and the template keeps lattice, site
    count and positions, carries on every site one of these placeholders,
    records the site's label under [sublattice_sites] over any earlier value,
    and keeps every other property. *)
Theorem X9_template_shape (h : gmap ref Structure) r s eqv ds :
  h !! r = Some s → get_symmetry_dataset (normalized s) = Ok ds →
  wyckoffs ds ≠ [] → length (sites s) ≤ length (wyckoffs ds) →
  length (sorted_set (merged_labels eqv (wyckoffs ds))) ≤ length periodic_table →
  ∃ ts tc,
    (get_templates get_symmetry_dataset r eqv h).1 = Ok (ts, tc) ∧
    tc = take (length (sorted_set (merged_labels eqv (wyckoffs ds)))) periodic_table ∧
    NoDup tc ∧
    lattice ts = lattice s ∧ length (sites ts) = length (sites s) ∧
    ∀ j site, sites ts !! j = Some site →
      element site ∈ tc ∧
      ∃ site0 label, sites s !! j = Some site0 ∧
        merged_labels eqv (wyckoffs ds) !! j = Some label ∧
        coords site = coords site0 ∧
        properties site !! "sublattice_sites" = Some label ∧
        ∀ key, key ≠ "sublattice_sites" →
               properties site !! key = properties site0 !! key.
Proof.
  intros Hr Hds Hne Hlen Htable.
  rewrite (get_templates_run _ h r s eqv Hr), Hds. cbn [fst mbind result_bind].
  pose proof (merged_labels_length eqv (wyckoffs ds)) as Hml.
  assert (Hsn : length (sites (normalized s)) = length (sites s)).
  { unfold normalized. simpl. apply length_fmap. }
  destruct (merged_labels eqv (wyckoffs ds)) as [|l0 ls0].
  { exfalso. destruct (wyckoffs ds); [done | simpl in Hml; lia]. }
  set (labels := l0 :: ls0) in *.
  rewrite mark_loop by lia. cbn [mbind result_bind].
  set (d1 := with_sites (normalized s) (zip_with marked (sites (normalized s)) labels)).
  destruct (assign_loop_shape (sorted_set labels) d1) as (d & Hrun & Hlat & HF).
  { apply sorted_set_NoDup. }
  { done. }
  { apply Forall_lookup. intros j site1 Hj. subst d1. simpl in Hj.
    apply lookup_zip_with_Some in Hj as (siteN & label & -> & _ & Hl).
    simpl. apply sorted_set_elem_of. by eapply list_elem_of_lookup_2. }
  rewrite Hrun. exists d, (take (length (sorted_set labels)) periodic_table).
  split_and!.
  - done.
  - done.
  - eapply sublist_NoDup; [apply periodic_table_NoDup | apply sublist_take].
  - by rewrite Hlat.
  - rewrite (Forall2_length _ _ _ HF). subst d1. simpl.
    rewrite length_zip_with, length_fmap. lia.
  - intros j site Hj.
    destruct (Forall2_lookup_l _ _ _ _ _ HF Hj) as (site1 & Hj1 & Hc & Hp & Hel).
    split; [done|]. subst d1. simpl in Hj1.
    apply lookup_zip_with_Some in Hj1 as (siteN & label & -> & HN & Hl).
    apply list_lookup_fmap_Some in HN as (site0 & -> & H0).
    exists site0, label. split_and!; [done | done | by rewrite Hc | |].
    + rewrite Hp. simpl. apply lookup_union_Some_l.
      unfold site_dict. apply lookup_singleton_eq.
    + intros key Hkey. rewrite Hp. simpl. rewrite lookup_union_r; [done|].
      unfold site_dict. by apply lookup_singleton_ne.
Qed.

End TemplateMore.

(** ** The endmember generator, continued *)

Section EndmemberMore.
Context {Lattice Coords : Type}.
Abbreviation Structure := (@Structure Lattice Coords).
Variable substitute_configuration :
  Structure → list (list string) → list (list string) → result Structure.

Lemma axes_in_given_order (tc : list string) (sc : list (list string)) :
  NoDup tc → length sc = length tc →
  (λ k, default [] (dict_of_pairs (zip tc sc) !! k)) <$> tc = sc.
Proof.
  intros Hnd Hlen. apply list_eq. intros i. rewrite list_lookup_fmap.
  destruct (tc !! i) as [p|] eqn:Hp; simpl.
  - destruct (lookup_lt_is_Some_2 sc i) as [ax Hax].
    { rewrite Hlen. exact (lookup_lt_Some _ _ _ Hp). }
    by rewrite Hax, (element_dict_lookup tc sc i p ax).
  - symmetry. apply lookup_ge_None. rewrite Hlen. by apply lookup_ge_None.
Qed.

(** X10: with no placeholder, or with no candidate list, the product has the
    empty tuple as its only element: the engine is called once, with that
    tuple, and its answer is the only structure returned. *)
Theorem X10_empty_configuration (ts : Structure) :
  (∀ sc, get_endmembers_with_templates substitute_configuration ts [] sc
         = match substitute_configuration ts [[]] [[]] with
           | Ok o => Ok [o]
           | Raise e => Raise e
           end) ∧
  (∀ tc, get_endmembers_with_templates substitute_configuration ts tc []
         = match substitute_configuration ts [tc] [[]] with
           | Ok o => Ok [o]
           | Raise e => Raise e
           end).
Proof.
  assert (Hempty : sorted (elements (dom (dict_of_pairs ([] : list (string * list string)))))
                   = []).
  { apply Permutation_nil_r. rewrite sorted_Permutation.
    unfold dict_of_pairs. simpl. by rewrite dom_empty_L, elements_empty. }
  split.
  - intros sc. rewrite get_endmembers_with_templates_run.
    cbn [zip_with]. rewrite Hempty. cbn [fmap list_fmap product mapM].
    by destruct (substitute_configuration ts [[]] [[]]).
  - intros tc. rewrite get_endmembers_with_templates_run.
    rewrite zip_with_nil_r, Hempty. cbn [fmap list_fmap product mapM].
    by destruct (substitute_configuration ts [tc] [[]]).
Qed.

(** X11: when the placeholders are pairwise distinct and already in string
    order, with one candidate list each, the product is taken over
    [sublattice_configuration] as given, so every tuple lists its elements in
    the order of [template_configuration]. *)
Theorem X11_sorted_placeholders (ts : Structure) tc sc :
  NoDup tc → Sorted str_le tc → length sc = length tc →
  get_endmembers_with_templates substitute_configuration ts tc sc
  = mapM (λ t, substitute_configuration ts [tc] [t]) (product sc).
Proof.
  intros Hnd Hsorted Hlen. rewrite get_endmembers_with_templates_run.
  rewrite element_dict_dom by lia. fold (sorted_set tc).
  rewrite (sorted_set_unique tc tc) by done.
  by rewrite axes_in_given_order.
Qed.

(** X12: with pairwise distinct placeholders, every tuple handed to the
    engine has as many entries as there are placeholders paired with a
    candidate list, the smaller of the two lengths, and there is one tuple
    per element of the product of these candidate lists; with fewer candidate
    lists than placeholders every tuple is therefore shorter than
    [template_configuration]. *)
Theorem X12_tuple_length (ts : Structure) tc sc :
  NoDup tc →
  ∃ tuples,
    get_endmembers_with_templates substitute_configuration ts tc sc
    = mapM (λ t, substitute_configuration ts [tc] [t]) tuples ∧
    Forall (λ t, length t = length tc `min` length sc) tuples ∧
    length tuples = product_of_sizes (take (length tc) sc).
Proof.
  intros Hnd. rewrite get_endmembers_with_templates_run.
  set (n := length tc `min` length sc).
  assert (Hzip : zip tc sc = zip (take n tc) (take n sc)).
  { symmetry. apply zip_with_take_both'; lia. }
  assert (Hnd' : NoDup (take n tc)).
  { eapply sublist_NoDup; [exact Hnd | apply sublist_take]. }
  assert (Hlen' : length (take n sc) = length (take n tc)).
  { rewrite !length_take. lia. }
  rewrite Hzip. rewrite element_dict_dom by lia. fold (sorted_set (take n tc)).
  pose proof (axes_Permutation (take n tc) (take n sc) Hnd' Hlen') as Hperm.
  set (axes := (λ k, default [] (dict_of_pairs (zip (take n tc) (take n sc)) !! k))
                 <$> sorted_set (take n tc)) in *.
  exists (product axes). split_and!; [done | |].
  - apply Forall_forall. intros t Ht%product_elem_of%Forall2_length.
    rewrite Ht, (Permutation_length Hperm), length_take. lia.
  - rewrite product_length. fold (product_of_sizes axes).
    rewrite (product_of_sizes_Permutation _ _ Hperm).
    f_equal. subst n. destruct (decide (length tc ≤ length sc)).
    + by rewrite Nat.min_l by lia.
    + rewrite Nat.min_r by lia. by rewrite !take_ge by lia.
Qed.

End EndmemberMore.

(** ** Templates handed to the endmember generator *)

Lemma for_each_seq_inv_Ok {St} (body : St → nat → result St)
    (Inv : nat → St → Prop) n :
  ∀ a s s', Inv a s →
    (∀ i s s', a ≤ i < a + n → Inv i s → body s i = Ok s' → Inv (S i) s') →
    for_each body s (seq a n) = Ok s' → Inv (a + n) s'.
Proof.
  induction n as [|n IH]; intros a s s' Hs Hstep; cbn [seq for_each].
  - intros [= <-]. by rewrite Nat.add_0_r.
  - destruct (body s a) as [s1|e] eqn:Hbody; cbn [mbind result_bind]; [|done].
    intros Hrun. replace (a + S n) with (S a + n) by lia.
    apply (IH (S a) s1 s'); [|intros i s2 s3 Hi; apply Hstep; lia | done].
    apply (Hstep a s s1); [lia | done | done].
Qed.

Lemma first_elements_sorted n :
  n ≤ 3 → Sorted str_le (take n periodic_table).
Proof.
  intros Hn. destruct n as [|[|[|[|n]]]]; [| | | |lia];
    cbn [take periodic_table]; repeat constructor; by vm_compute.
Qed.

Section TemplatesToEndmembers.
Context {Lattice Coords : Type}.
Abbreviation Structure := (@Structure Lattice Coords).
Variable get_symmetry_dataset : Structure → result SymmetryDataset.
Variable substitute_configuration :
  Structure → list (list string) → list (list string) → result Structure.

Lemma assign_configuration (names : list string) (d d' : Structure) cfg n :
  for_each (assign_placeholder names) (d, []) (seq 0 n) = Ok (d', cfg) →
  cfg = take n periodic_table ∧ n ≤ length periodic_table.
Proof.
  intros Hrun.
  apply (for_each_seq_inv_Ok (assign_placeholder names)
           (λ i st, st.2 = take i periodic_table ∧ i ≤ length periodic_table)
           n 0 (d, []) (d', cfg)); [split; [done | lia] | | done].
  intros i [d1 c1] [d2 c2] _ [Hc Hi]. cbn [fst snd] in *.
  unfold assign_placeholder. destruct (names !! i); [|done].
  destruct (from_Z (i + 1)) as [P|e] eqn:HP; cbn [mbind result_bind]; [|done].
  apply from_Z_Ok in HP. intros [= <- <-]. cbn [fst snd]. split.
  - by rewrite Hc, (take_S_r _ _ _ HP).
  - apply lookup_lt_Some in HP. lia.
Qed.

(** The configuration [get_templates] returns is an initial segment of the
    element symbols. *)
Lemma get_templates_configuration (h : gmap ref Structure) r s eqv ts tc :
  h !! r = Some s →
  (get_templates get_symmetry_dataset r eqv h).1 = Ok (ts, tc) →
  tc = take (length tc) periodic_table ∧ length tc ≤ length periodic_table.
Proof.
  intros Hr. rewrite (get_templates_run _ h r s eqv Hr). cbn [fst].
  destruct (get_symmetry_dataset (normalized s)) as [ds|e];
    cbn [mbind result_bind]; [|done].
  destruct (merged_labels eqv (wyckoffs ds)) as [|l0 ls0]; [done|].
  destruct (for_each (mark_site _) _ _) as [d1|e]; cbn [mbind result_bind]; [|done].
  intros [Hcfg Hn]%assign_configuration.
  assert (Hlen : length tc = length (sorted_set (l0 :: ls0))).
  { rewrite Hcfg at 1. by rewrite length_take_le. }
  by rewrite Hlen.
Qed.

(** X16: for a template of at most three sublattices returned by
    [get_templates], the placeholders are in string order, so
    [get_endmembers_with_templates] takes the product over
    [sublattice_configuration] as given: every tuple handed to the engine
    lists its elements in the order of [template_configuration]. *)
Theorem X16_up_to_three_sublattices (h : gmap ref Structure) r s eqv ts tc sc :
  h !! r = Some s →
  (get_templates get_symmetry_dataset r eqv h).1 = Ok (ts, tc) →
  length tc ≤ 3 → length sc = length tc →
  get_endmembers_with_templates substitute_configuration ts tc sc
  = mapM (λ t, substitute_configuration ts [tc] [t]) (product sc).
Proof.
  intros Hr Hrun Hthree Hlen.
  destruct (get_templates_configuration h r s eqv ts tc Hr Hrun) as [Htc _].
  assert (Hnd : NoDup tc).
  { rewrite Htc. eapply sublist_NoDup; [apply periodic_table_NoDup | apply sublist_take]. }
  assert (Hsorted : Sorted str_le tc).
  { rewrite Htc. by apply first_elements_sorted. }
  rewrite get_endmembers_with_templates_run.
  rewrite element_dict_dom by lia. fold (sorted_set tc).
  rewrite (sorted_set_unique tc tc) by done.
  by rewrite axes_in_given_order.
Qed.

(** X17: from four sublattices on, the configuration [get_templates] returns
    is not in string order: it starts with "H", while the sorted keys that
    [get_endmembers_with_templates] takes its axes from start with another
    placeholder. *)
Theorem X17_from_four_sublattices (h : gmap ref Structure) r s eqv ts tc :
  h !! r = Some s →
  (get_templates get_symmetry_dataset r eqv h).1 = Ok (ts, tc) →
  4 ≤ length tc →
  tc !! 0 = Some "H" ∧
  (∃ p, sorted tc !! 0 = Some p ∧ p ≠ "H") ∧
  sorted tc ≠ tc.
Proof.
  intros Hr Hrun Hfour.
  destruct (get_templates_configuration h r s eqv ts tc Hr Hrun) as [Htc _].
  assert (H0 : tc !! 0 = Some "H").
  { rewrite Htc. by rewrite lookup_take_lt by lia. }
  assert (H3 : "Be" ∈ sorted tc).
  { rewrite sorted_Permutation. apply list_elem_of_lookup. exists 3.
    rewrite Htc. by rewrite lookup_take_lt by lia. }
  assert (Hhead : ∃ p, sorted tc !! 0 = Some p ∧ p ≠ "H").
  { pose proof (Sorted_StronglySorted _ _ (sorted_Sorted tc)) as Hs.
    destruct (sorted tc) as [|p rest]; [by apply elem_of_nil in H3|].
    exists p. split; [done|]. intros ->.
    apply StronglySorted_inv in Hs as [_ Hall].
    apply elem_of_cons in H3 as [?|Hin]; [done|].
    rewrite Forall_forall in Hall. specialize (Hall _ Hin).
    by vm_compute in Hall. }
  split_and!; [done | done |].
  intros Heq. destruct Hhead as (p & Hp & Hne). rewrite Heq, H0 in Hp. congruence.
Qed.

End TemplatesToEndmembers.

(** ** The further properties at concrete structures *)

Module MoreExamples.
Import Fixtures.

Lemma X1_witness :
  sorted_set ["a"; "b"] ≠ [] ∧ NoDup (sorted_set ["a"; "b"]) ∧
  (∀ d, d ∈ site_dict <$> ["a"; "b"] →
     ∃ label, d = {[ "sublattice_sites" := label ]} ∧ label ∈ sorted_set ["a"; "b"]) ∧
  (∀ label, label ∈ sorted_set ["a"; "b"] →
     ({[ "sublattice_sites" := label ]} : gmap string string)
       ∈ site_dict <$> ["a"; "b"]).
Proof.
  apply (X1_site_list_matches_names fake_symmetry (store rocksalt) 1%positive
           rocksalt None (site_dict <$> ["a"; "b"]) (sorted_set ["a"; "b"]));
    reflexivity.
Defined.

Lemma X2_witness :
  (get_sublattice_information failing_symmetry 1%positive None (store rocksalt)).1
  = Raise SymmetryError ∧
  (get_templates failing_symmetry 1%positive None (store rocksalt)).1
  = Raise SymmetryError.
Proof.
  apply (X2_symmetry_failure_propagates failing_symmetry (store rocksalt) 1%positive
           rocksalt None SymmetryError); reflexivity.
Defined.

Lemma X3_witness :
  get_sublattice_information fake_symmetry 1%positive None
    (get_sublattice_information fake_symmetry 1%positive None (store rocksalt)).2
  = get_sublattice_information fake_symmetry 1%positive None (store rocksalt).
Proof.
  apply (X3_second_call_same fake_symmetry (store rocksalt) 1%positive rocksalt None).
  reflexivity.
Defined.

Lemma X4_witness :
  get_sublattice_information fake_symmetry 1%positive (Some ∅) (store rocksalt)
  = get_sublattice_information fake_symmetry 1%positive None (store rocksalt) ∧
  get_templates fake_symmetry 1%positive (Some ∅) (store rocksalt)
  = get_templates fake_symmetry 1%positive None (store rocksalt).
Proof.
  apply (X4_irrelevant_map fake_symmetry (store rocksalt) 1%positive rocksalt ∅).
  - reflexivity.
  - intros ds w _ _. reflexivity.
Defined.

Lemma X5_witness :
  length (sorted_set ["a"; "f"; "f"; "f"]) ≤ length (sorted_set ["a"; "b"; "f"; "b"]) ∧
  length (site_dict <$> ["a"; "f"; "f"; "f"])
  = length (site_dict <$> ["a"; "b"; "f"; "b"]).
Proof.
  apply (X5_merging_never_adds fake_symmetry (store three_orbits) 1%positive
           three_orbits {[ "b" := "f" ]}); reflexivity.
Defined.

Lemma X6_witness :
  (get_templates fake_symmetry 1%positive None (store rocksalt)).1
  = (get_templates fake_symmetry 1%positive None (store sylvite)).1.
Proof.
  apply (X6_template_from_geometry fake_symmetry (store rocksalt) (store sylvite)
           1%positive 1%positive rocksalt sylvite None).
  - reflexivity.
  - reflexivity.
  - vm_compute. auto.
Defined.

Lemma X7_witness :
  (get_templates short_symmetry 1%positive None (store rocksalt)).1 = Raise IndexError.
Proof.
  apply (X7_fewer_labels_than_sites short_symmetry (store rocksalt) 1%positive
           rocksalt None (mkDataset ["a"] [0%Z])).
  - reflexivity.
  - reflexivity.
  - simpl. discriminate.
  - simpl. lia.
Defined.

Lemma X8_witness :
  (get_templates crowded_symmetry 1%positive None (store rocksalt)).1 = Raise ValueError.
Proof.
  apply (X8_more_names_than_elements crowded_symmetry (store rocksalt) 1%positive
           rocksalt None
           (mkDataset ((λ n, String (Ascii.ascii_of_nat n) EmptyString) <$> seq 1 119) [])).
  - reflexivity.
  - reflexivity.
  - vm_compute. lia.
  - vm_compute. lia.
Defined.

(** The template of a structure whose first site already carries a
    [sublattice_sites] property, under a map whose targets are element
    symbols. *)
Lemma X9_witness :
  ∃ ts tc,
    (get_templates fake_symmetry 1%positive
       (Some {[ "a" := "B"; "b" := "H" ]}) (store tagged)).1 = Ok (ts, tc) ∧
    NoDup tc ∧ length (sites ts) = 2 ∧
    ∀ site, sites ts !! 0 = Some site →
      element site ∈ tc ∧
      properties site !! "sublattice_sites" = Some "B" ∧
      properties site !! "magmom" = Some "5".
Proof.
  destruct (X9_template_shape fake_symmetry (store tagged) 1%positive tagged
              (Some {[ "a" := "B"; "b" := "H" ]}) (mkDataset ["a"; "b"] [0; 1]%Z))
    as (ts & tc & Hrun & _ & Hnd & _ & Hlen & Hsites).
  - reflexivity.
  - reflexivity.
  - simpl. discriminate.
  - simpl. lia.
  - vm_compute. lia.
  - exists ts, tc. split_and!; [exact Hrun | exact Hnd | exact Hlen |].
    intros site Hsite.
    destruct (Hsites 0 site Hsite) as (Hel & site0 & label & H0 & Hl & _ & Hp & Hk).
    injection H0 as <-. injection Hl as <-.
    split_and!; [exact Hel | exact Hp |]. by rewrite Hk.
Defined.

Lemma X11_witness :
  get_endmembers_with_templates substitute_configuration
    (structure [site "H" 0 0 0; site "He" 1 0 0; site "Li" 2 0 0])
    ["H"; "He"; "Li"] [["Na"; "K"]; ["Cl"]; ["O"; "S"]]
  = mapM (λ t, substitute_configuration
                 (structure [site "H" 0 0 0; site "He" 1 0 0; site "Li" 2 0 0])
                 [["H"; "He"; "Li"]] [t])
         (product [["Na"; "K"]; ["Cl"]; ["O"; "S"]]).
Proof.
  apply (X11_sorted_placeholders substitute_configuration
           (structure [site "H" 0 0 0; site "He" 1 0 0; site "Li" 2 0 0])
           ["H"; "He"; "Li"] [["Na"; "K"]; ["Cl"]; ["O"; "S"]]).
  - refine (bool_decide_unpack _ _). vm_compute. exact I.
  - repeat constructor; by vm_compute.
  - reflexivity.
Defined.

Lemma X12_witness :
  ∃ tuples,
    get_endmembers_with_templates substitute_configuration
      (structure [site "H" 0 0 0; site "He" 1 2 2]) ["H"; "He"] [["Na"; "K"]]
    = mapM (λ t, substitute_configuration
                   (structure [site "H" 0 0 0; site "He" 1 2 2]) [["H"; "He"]] [t])
           tuples ∧
    Forall (λ t, length t = 1) tuples ∧ length tuples = 2.
Proof.
  destruct (X12_tuple_length substitute_configuration
              (structure [site "H" 0 0 0; site "He" 1 2 2]) ["H"; "He"] [["Na"; "K"]])
    as (tuples & Hrun & Hlen & Hcount).
  - refine (bool_decide_unpack _ _). vm_compute. exact I.
  - exists tuples. split_and!; [exact Hrun | exact Hlen | exact Hcount].
Defined.

Lemma X16_witness :
  ∃ ts tc,
    (get_templates fake_symmetry 1%positive None (store rocksalt)).1 = Ok (ts, tc) ∧
    get_endmembers_with_templates substitute_configuration ts tc [["Na"; "K"]; ["Cl"]]
    = mapM (λ t, substitute_configuration ts [tc] [t]) (product [["Na"; "K"]; ["Cl"]]).
Proof.
  destruct ((get_templates fake_symmetry 1%positive None (store rocksalt)).1)
    as [[ts tc]|e] eqn:Hrun; [|vm_compute in Hrun; discriminate].
  exists ts, tc. split; [reflexivity|].
  assert (Hlen : length tc = 2).
  { pose proof Hrun as H'. vm_compute in H'. injection H' as _ <-. reflexivity. }
  apply (X16_up_to_three_sublattices fake_symmetry substitute_configuration
           (store rocksalt) 1%positive rocksalt None ts tc [["Na"; "K"]; ["Cl"]]
           eq_refl Hrun); rewrite Hlen; [lia | reflexivity].
Defined.

Lemma X17_witness :
  ∃ ts tc,
    (get_templates fake_symmetry 1%positive None (store four_orbits)).1 = Ok (ts, tc) ∧
    sorted tc ≠ tc.
Proof.
  destruct ((get_templates fake_symmetry 1%positive None (store four_orbits)).1)
    as [[ts tc]|e] eqn:Hrun; [|vm_compute in Hrun; discriminate].
  exists ts, tc. split; [reflexivity|].
  assert (Hlen : length tc = 4).
  { pose proof Hrun as H'. vm_compute in H'. injection H' as _ <-. reflexivity. }
  apply (X17_from_four_sublattices fake_symmetry (store four_orbits) 1%positive
           four_orbits None ts tc eq_refl Hrun). rewrite Hlen. lia.
Defined.

End MoreExamples.
